(** * generic-webdriver-server: the protocol dispatcher and the
      single-session lifecycle manager

    A shallow embedding of [generic-webdriver-server.js].  The server is
    asynchronous JavaScript: every method is an [async] function that runs
    synchronously up to its next [await] of an operation of the platform
    (the random source, a backend hook) and is resumed later by the event
    loop.  The embedding keeps that structure: methods are written in a
    small monad [Async] whose suspension points are explicit, and two
    semantics are given for it, a run to completion of one call ([exec])
    and the event loop with its pool of suspended calls ([step]). *)

From Stdlib Require Import String Ascii List ZArith NArith Bool Lia Arith.
From Stdlib.Strings Require Import Byte.
From Stdlib Require QArith Qround.
Import ListNotations.
Local Open Scope string_scope.
Set Warnings "-register-all".

(** ** JavaScript values *)

(** The values that travel through the server: parsed JSON bodies and the
    payloads of responses.  JSON numbers are kept as integers, the code
    only ever tests a number for truthiness. *)
Inductive JsVal : Type :=
| JUndefined
| JNull
| JBool (b : bool)
| JNum (n : Z)
| JStr (s : string)
| JArr (items : list JsVal)
| JObj (fields : list (string * JsVal)).

(** [!s] is false exactly for the non-empty strings. *)
Definition str_truthy (s : string) : bool :=
  match s with
  | EmptyString => false
  | String _ _ => true
  end.

(** JavaScript truthiness, as tested by [!v]. *)
Definition truthy (v : JsVal) : bool :=
  match v with
  | JUndefined | JNull => false
  | JBool b => b
  | JNum n => negb (n =? 0)%Z
  | JStr s => str_truthy s
  | JArr _ | JObj _ => true
  end.

(** Own property lookup in an object literal or a parsed JSON object; a
    later duplicate key wins, as in [JSON.parse]. *)
Fixpoint lookup_field (k : string) (fields : list (string * JsVal))
  : option JsVal :=
  match fields with
  | [] => None
  | (k', v) :: rest =>
      match lookup_field k rest with
      | Some v' => Some v'
      | None => if String.eqb k k' then Some v else None
      end
  end.

(** [v.url] for a property name that is neither an index nor a built-in:
    [None] stands for the TypeError of reading a property of [undefined]
    or [null]; primitives and arrays have no such property. *)
Definition get_property (v : JsVal) (k : string) : option JsVal :=
  match v with
  | JUndefined | JNull => None
  | JObj fields =>
      match lookup_field k fields with
      | Some x => Some x
      | None => Some JUndefined
      end
  | _ => Some JUndefined
  end.

(** ** Buffers: hex and base64 *)

Definition hex_digit (n : N) : ascii :=
  match n with
  | 0 => "0" | 1 => "1" | 2 => "2" | 3 => "3" | 4 => "4" | 5 => "5"
  | 6 => "6" | 7 => "7" | 8 => "8" | 9 => "9" | 10 => "a" | 11 => "b"
  | 12 => "c" | 13 => "d" | 14 => "e" | _ => "f"
  end%N%char.

(** [bytes.toString('hex')]: two lower-case digits per byte. *)
Fixpoint toString_hex (bytes : list byte) : string :=
  match bytes with
  | [] => ""
  | b :: rest =>
      let n := Byte.to_N b in
      String (hex_digit (n / 16)) (String (hex_digit (n mod 16))
        (toString_hex rest))
  end.


Fixpoint string_forallb (p : ascii -> bool) (s : string) : bool :=
  match s with
  | EmptyString => true
  | String c rest => p c && string_forallb p rest
  end.

Definition base64_digit (n : N) : ascii :=
  if (n <? 26)%N then ascii_of_N (65 + n)
  else if (n <? 52)%N then ascii_of_N (97 + (n - 26))
  else if (n <? 62)%N then ascii_of_N (48 + (n - 52))
  else if (n =? 62)%N then "+"%char else "/"%char.

(** [png.toString('base64')]: three bytes give four digits, the last
    group is padded with [=]. *)
Fixpoint toString_base64 (bytes : list byte) : string :=
  match bytes with
  | [] => ""
  | [a] =>
      let x := Byte.to_N a in
      String (base64_digit (x / 4))
        (String (base64_digit ((x mod 4) * 16)) "==")
  | [a; b] =>
      let x := Byte.to_N a in
      let y := Byte.to_N b in
      String (base64_digit (x / 4))
        (String (base64_digit ((x mod 4) * 16 + y / 16))
           (String (base64_digit ((y mod 16) * 4)) "="))
  | a :: b :: c :: rest =>
      let x := Byte.to_N a in
      let y := Byte.to_N b in
      let z := Byte.to_N c in
      String (base64_digit (x / 4))
        (String (base64_digit ((x mod 4) * 16 + y / 16))
           (String (base64_digit ((y mod 16) * 4 + z / 64))
              (String (base64_digit (z mod 64)) (toString_base64 rest))))
  end%N.

(** ** The response model *)

(** [class GenericWebDriverResponse]: a value and an HTTP status code. *)
Record GenericWebDriverResponse : Type := mkResponse {
  value : JsVal;
  httpStatusCode : Z
}.

Definition Success (v : JsVal) : GenericWebDriverResponse :=
  mkResponse v 200.

Definition error_payload (msg : string) : JsVal :=
  JObj [("error", JStr msg)].

Definition SessionNotCreatedError : GenericWebDriverResponse :=
  mkResponse (error_payload "session not created") 500.

Definition UnknownCommandError : GenericWebDriverResponse :=
  mkResponse (error_payload "unknown command") 404.

Definition InvalidArgumentError : GenericWebDriverResponse :=
  mkResponse (error_payload "invalid argument") 400.

Definition InvalidSessionIdError : GenericWebDriverResponse :=
  mkResponse (error_payload "invalid session id") 404.

Definition UnableToCaptureScreenError : GenericWebDriverResponse :=
  mkResponse (error_payload "unable to capture screen") 500.

Definition UnknownError : GenericWebDriverResponse :=
  mkResponse (error_payload "unknown error") 500.

(** What a [throw] or a rejected promise carries: an instance of
    [GenericWebDriverResponse] (or of a subclass), a TypeError of the
    runtime, or any other value. *)
Inductive Exception : Type :=
| ExnResponse (r : GenericWebDriverResponse)
| ExnTypeError (msg : string)
| ExnOther (v : JsVal).

(** [error instanceof GenericWebDriverResponse] *)
Definition instanceof_Response (e : Exception)
  : option GenericWebDriverResponse :=
  match e with
  | ExnResponse r => Some r
  | _ => None
  end.

(** ** The server object and the runtime around it *)

(** The parsed command line ([yargs.argv]); the idle timeout is kept as a
    whole number of seconds. *)
Record Flags : Type := mkFlags {
  port : Z;
  logPath : option string;
  idleTimeoutSeconds : Z
}.

Definition NUM_RANDOM_ID_BYTES : nat := 16.
Definition MILLISECONDS_PER_SECOND : Z := 1000.

(** A [Timeout] object of the runtime is named by its position in the
    timer table. *)
Definition Handle : Type := nat.

Inductive TimerStatus : Type := Pending | Fired | Cleared.

(** The function given to [setTimeout]; the server has one. *)
Inductive Callback : Type := ActivityTimeout.

(** One entry of the timer table.  [armed_for] is a ghost field: the value
    of [this.sessionId_] when [setTimeout] was called.  No code reads it;
    it lets a statement say which session a timer belongs to. *)
Record Timer : Type := mkTimer {
  callback : Callback;
  delay : Z;
  armed_for : string;
  status : TimerStatus
}.

Inductive Listener : Type := Listening | Closed.

(** The fields of a [GenericSingleSessionWebDriverServer]; [None] is
    [null]. *)
Record Server : Type := mkServer {
  flags : Flags;
  server : option Listener;
  sessionId_ : string;
  timeout_ : option Handle
}.

Inductive Hook : Type :=
| navigateToSingleSession (url : JsVal)
| closeSingleSession
| shutdownSingleSession.

(** The asynchronous operations a call can be suspended on. *)
Inductive Call : Type :=
| randomBytes (n : nat)
| HookCall (h : Hook).

Inductive LogLevel : Type := LogInfo | LogDebug | LogError.

Inductive LogArg : Type :=
| LStr (s : string)
| LVal (v : JsVal)
| LExn (e : Exception).

(** What the server does to the world outside its own fields, in order. *)
Inductive Effect : Type :=
| Logged (level : LogLevel) (args : list LogArg)
| Invoked (c : Call)
| Completed (c : Call) (err : option Exception)
| SetTimeout (h : Handle) (ms : Z)
| ClearTimeout (h : option Handle)
| Refreshed (h : Handle)
| ListenOn (p : Z)
| ServerClose
| Responded (status : Z) (body : JsVal)
| UnhandledRejection (e : Exception).

(** The whole state: the server object, the timer table of the runtime,
    the random source ([entropy] read from [cursor] on) and the effects
    so far. *)
Record World : Type := mkWorld {
  this : Server;
  timers : list Timer;
  entropy : nat -> byte;
  cursor : nat;
  trace : list Effect
}.

Definition with_this (f : Server -> Server) (w : World) : World :=
  mkWorld (f (this w)) (timers w) (entropy w) (cursor w) (trace w).

Definition with_timers (f : list Timer -> list Timer) (w : World) : World :=
  mkWorld (this w) (f (timers w)) (entropy w) (cursor w) (trace w).

Definition emit (e : Effect) (w : World) : World :=
  mkWorld (this w) (timers w) (entropy w) (cursor w) (trace w ++ [e])%list.

(** The next [n] bytes of the random source. *)
Definition draw (n : nat) (w : World) : list byte * World :=
  (map (entropy w) (seq (cursor w) n),
   mkWorld (this w) (timers w) (entropy w) (cursor w + n) (trace w)).

Definition set_status (st : TimerStatus) (t : Timer) : Timer :=
  mkTimer (callback t) (delay t) (armed_for t) st.

Fixpoint update_timer (h : Handle) (f : Timer -> Timer) (l : list Timer)
  : list Timer :=
  match l, h with
  | [], _ => []
  | t :: rest, O => f t :: rest
  | t :: rest, S h' => t :: update_timer h' f rest
  end.

Definition timer_status (h : Handle) (w : World) : option TimerStatus :=
  option_map status (nth_error (timers w) h).

(** The state after [new GenericSingleSessionWebDriverServer()]: no
    listener yet, no session, no timer. *)
Definition initial (fl : Flags) (rnd : nat -> byte) : World :=
  mkWorld (mkServer fl None "" None) [] rnd 0 [].

(** ** Asynchronous computations *)

Inductive Settled (R : Type) : Type :=
| Resolved (r : R)
| Rejected (e : Exception).
Arguments Resolved {R} r.
Arguments Rejected {R} e.

(** The body of an [async] function.  [Read] and [Modify] are its
    synchronous accesses to the world, the two [Await] forms suspend it on
    an operation of the platform and continue with how that settled, and
    [Spawn] is a call of another [async] function whose promise is
    dropped: the child runs up to its first suspension, then the caller
    goes on.

    An awaited call of one of the server's own methods is a [bind]: the
    caller goes on when the callee is over.  The runtime may run other
    ready continuations in between; this changes nothing here, since no
    caller reads the session id or the timer handle after such an await.
    The hooks and the random source are taken to act outside the server
    object: they do not call its methods or write its fields. *)
Inductive Async (A : Type) : Type :=
| Return (a : A)
| Throw (e : Exception)
| Read (k : World -> Async A)
| Modify (f : World -> World) (k : Async A)
| AwaitRandomBytes (n : nat) (k : Settled (list byte) -> Async A)
| AwaitHook (h : Hook) (k : Settled unit -> Async A)
| Spawn (child : Async unit) (k : Async A).
Arguments Return {A} a.
Arguments Throw {A} e.
Arguments Read {A} k.
Arguments Modify {A} f k.
Arguments AwaitRandomBytes {A} n k.
Arguments AwaitHook {A} h k.
Arguments Spawn {A} child k.

Fixpoint bind {A B : Type} (m : Async A) (f : A -> Async B) : Async B :=
  match m with
  | Return a => f a
  | Throw e => Throw e
  | Read k => Read (fun w => bind (k w) f)
  | Modify g k => Modify g (bind k f)
  | AwaitRandomBytes n k => AwaitRandomBytes n (fun o => bind (k o) f)
  | AwaitHook h k => AwaitHook h (fun o => bind (k o) f)
  | Spawn child k => Spawn child (bind k f)
  end.

(** [try { m } catch (error) { handler error }]; a dropped child is not
    inside the [try] of its caller. *)
Fixpoint try_catch {A : Type} (m : Async A) (handler : Exception -> Async A)
  : Async A :=
  match m with
  | Return a => Return a
  | Throw e => handler e
  | Read k => Read (fun w => try_catch (k w) handler)
  | Modify g k => Modify g (try_catch k handler)
  | AwaitRandomBytes n k =>
      AwaitRandomBytes n (fun o => try_catch (k o) handler)
  | AwaitHook h k => AwaitHook h (fun o => try_catch (k o) handler)
  | Spawn child k => Spawn child (try_catch k handler)
  end.

Declare Scope async_scope.
Delimit Scope async_scope with async.
Notation "x <- m ;; k" := (bind m (fun x => k))
  (at level 61, m at next level, right associativity) : async_scope.
Notation "m ;; k" := (bind m (fun _ => k))
  (at level 61, right associativity) : async_scope.
Local Open Scope async_scope.

(** [await] of a promise: its value, or its rejection thrown here. *)
Definition settle {R : Type} (o : Settled R) : Async R :=
  match o with
  | Resolved r => Return r
  | Rejected e => Throw e
  end.

Definition await_randomBytes (n : nat) : Async (list byte) :=
  AwaitRandomBytes n settle.

Definition await_hook (h : Hook) : Async unit :=
  AwaitHook h settle.

Definition read {A : Type} (f : World -> A) : Async A :=
  Read (fun w => Return (f w)).

Definition modify (f : World -> World) : Async unit :=
  Modify f (Return tt).

(** *** Semantics *)

Inductive Completion (A : Type) : Type :=
| Returned (a : A)
| Threw (e : Exception).
Arguments Returned {A} a.
Arguments Threw {A} e.

(** What is left of a dropped child after its first synchronous part: a
    suspended child joins the pool, a child that already threw is an
    unhandled rejection. *)
Definition detached (c : Async unit) : list (Async unit) :=
  match c with
  | AwaitRandomBytes _ _ | AwaitHook _ _ => [c]
  | _ => []
  end.

Definition note_rejection {A : Type} (c : Async A) (w : World) : World :=
  match c with
  | Throw e => emit (UnhandledRejection e) w
  | _ => w
  end.

(** One synchronous part: run [m] up to its completion or its next
    suspension.  Reaching an [Await] calls the awaited operation.  The
    result is the new world, the children dropped on the way and what is
    left of [m] ([Return], [Throw] or an [Await]). *)
Fixpoint run_sync {A : Type} (m : Async A) (w : World)
  : World * list (Async unit) * Async A :=
  match m with
  | Return _ | Throw _ => (w, [], m)
  | Read k => run_sync (k w) w
  | Modify f k => run_sync k (f w)
  | AwaitRandomBytes n _ => (emit (Invoked (randomBytes n)) w, [], m)
  | AwaitHook h _ => (emit (Invoked (HookCall h)) w, [], m)
  | Spawn child k =>
      let '(w1, sp1, c) := run_sync child w in
      let '(w2, sp2, r) := run_sync k (note_rejection c w1) in
      (w2, (sp1 ++ detached c ++ sp2)%list, r)
  end.

(** How the platform settles a suspended computation: [err] is the
    rejection, or [None] when the operation succeeds; a successful
    [randomBytes n] takes its bytes from the random source. *)
Definition resume {A : Type} (m : Async A) (err : option Exception)
  (w : World) : World * Async A :=
  match m with
  | AwaitRandomBytes n k =>
      let w1 := emit (Completed (randomBytes n) err) w in
      match err with
      | Some e => (w1, k (Rejected e))
      | None => let (bs, w2) := draw n w1 in (w2, k (Resolved bs))
      end
  | AwaitHook h k =>
      (emit (Completed (HookCall h) err) w,
       k (match err with Some e => Rejected e | None => Resolved tt end))
  | _ => (w, m)
  end.

(** How the operations of the platform end during one call: the
    rejection of each, or [None]. *)
Definition Env : Type := Call -> option Exception.

(** One call run to completion: every operation it awaits settles at
    once, as [env] says.  Children it dropped are returned still
    suspended. *)
Fixpoint exec {A : Type} (env : Env) (m : Async A) (w : World)
  : World * list (Async unit) * Completion A :=
  match m with
  | Return a => (w, [], Returned a)
  | Throw e => (w, [], Threw e)
  | Read k => exec env (k w) w
  | Modify f k => exec env k (f w)
  | AwaitRandomBytes n k =>
      let c := randomBytes n in
      let w1 := emit (Completed c (env c)) (emit (Invoked c) w) in
      match env c with
      | Some e => exec env (k (Rejected e)) w1
      | None => let (bs, w2) := draw n w1 in exec env (k (Resolved bs)) w2
      end
  | AwaitHook h k =>
      let c := HookCall h in
      let w1 := emit (Completed c (env c)) (emit (Invoked c) w) in
      exec env
        (k (match env c with Some e => Rejected e | None => Resolved tt end))
        w1
  | Spawn child k =>
      let '(w1, sp1, c) := run_sync child w in
      let '(w2, sp2, r) := exec env k (note_rejection c w1) in
      (w2, (sp1 ++ detached c ++ sp2)%list, r)
  end.

(** ** Primitives of the server object and of the runtime *)

Definition this_sessionId_ : Async string :=
  read (fun w => sessionId_ (this w)).

Definition this_timeout_ : Async (option Handle) :=
  read (fun w => timeout_ (this w)).

Definition this_flags : Async Flags :=
  read (fun w => flags (this w)).

Definition set_sessionId_ (s : string) : Async unit :=
  modify (with_this (fun t => mkServer (flags t) (server t) s (timeout_ t))).

Definition set_timeout_ (h : option Handle) : Async unit :=
  modify (with_this (fun t => mkServer (flags t) (server t) (sessionId_ t) h)).

Definition set_server (l : option Listener) : Async unit :=
  modify (with_this (fun t => mkServer (flags t) l (sessionId_ t) (timeout_ t))).

(** [this.log.info(...)], [this.log.debug(...)], [this.log.error(...)] *)
Definition log (level : LogLevel) (args : list LogArg) : Async unit :=
  modify (emit (Logged level args)).

(** [setTimeout(cb, ms)]: a new pending entry of the timer table. *)
Definition setTimeout (cb : Callback) (ms : Z) : Async Handle :=
  Read (fun w =>
    let h := length (timers w) in
    let t := mkTimer cb ms (sessionId_ (this w)) Pending in
    Modify (fun w' => emit (SetTimeout h ms)
                        (with_timers (fun l => (l ++ [t])%list) w'))
      (Return h)).

Definition cancel (t : Timer) : Timer :=
  match status t with
  | Pending => set_status Cleared t
  | _ => t
  end.

(** [clearTimeout(t)]; a [null] argument is ignored by the runtime. *)
Definition clearTimeout (t : option Handle) : Async unit :=
  modify (fun w =>
    emit (ClearTimeout t)
      match t with
      | Some h => with_timers (update_timer h cancel) w
      | None => w
      end).

(** [timer.refresh()] restarts the clock of a timer that is pending or
    has fired, and does nothing to a cleared one. *)
Definition rearm (t : Timer) : Timer :=
  match status t with
  | Cleared => t
  | _ => set_status Pending t
  end.

Definition null_refresh : Exception :=
  ExnTypeError "Cannot read properties of null (reading 'refresh')".

(** [this.timeout_.refresh()] *)
Definition timeout_refresh : Async unit :=
  t <- this_timeout_ ;;
  match t with
  | None => Throw null_refresh
  | Some h =>
      modify (fun w => emit (Refreshed h) (with_timers (update_timer h rearm) w))
  end.

Definition null_close : Exception :=
  ExnTypeError "Cannot read properties of null (reading 'close')".

(** [this.server.close()] *)
Definition server_close : Async unit :=
  s <- read (fun w => server (this w)) ;;
  match s with
  | None => Throw null_close
  | Some _ => set_server (Some Closed) ;; modify (emit ServerClose)
  end.

(** ** class GenericWebDriverServer *)

(** The methods a subclass overrides. *)
Module Methods.
Record t : Type := make {
  ready : Async bool;
  shutdown : Async unit;
  createSession : Async (option string);
  navigateTo : string -> JsVal -> Async unit;
  screenshot : string -> Async (list byte);
  getTitle : string -> Async string;
  closeSession : string -> Async unit
}.
End Methods.

(** The methods of the base class. *)
Module GenericWebDriverServer.
Definition ready : Async bool := Return false.
Definition shutdown : Async unit := Return tt.
Definition createSession : Async (option string) := Return None.
Definition navigateTo (sessionId : string) (url : JsVal) : Async unit :=
  Throw (ExnResponse InvalidSessionIdError).
Definition screenshot (sessionId : string) : Async (list byte) :=
  Throw (ExnResponse UnableToCaptureScreenError).
Definition getTitle (sessionId : string) : Async string :=
  Throw (ExnResponse InvalidSessionIdError).
Definition closeSession (sessionId : string) : Async unit := Return tt.

Definition methods : Methods.t :=
  Methods.make ready shutdown createSession navigateTo screenshot getTitle
    closeSession.
End GenericWebDriverServer.

(** [listen()]; the concatenated message is logged as its two parts. *)
Definition listen : Async unit :=
  fl <- this_flags ;;
  log LogInfo [LStr "Listening on port "; LVal (JNum (port fl))] ;;
  modify (emit (ListenOn (port fl))) ;;
  set_server (Some Listening).

(** *** The protocol routes *)

Inductive Route : Type :=
| GET_status
| GET_shutdown
| POST_session
| POST_session_url
| GET_session_screenshot
| DELETE_session_window
| DELETE_session
| GET_session_title
| catch_all.

(** The named parts of the URL; only routes with a [:sessionId] segment
    read the field. *)
Record Params : Type := mkParams { sessionId : string }.

(** A request as express hands it to the route it matched. *)
Record Request : Type := mkRequest {
  method : string;
  url : string;
  route : Route;
  params : Params;
  body : JsVal
}.

(** What the wrapper gives to [expressResponse.status] and to
    [expressResponse.json]. *)
Record Wire : Type := mkWire {
  statusCode : Z;
  jsonBody : JsVal
}.

(** A [?string] as a value: the string, or [null]. *)
Definition id_value (o : option string) : JsVal :=
  match o with
  | Some s => JStr s
  | None => JNull
  end.

Definition null_body : Exception :=
  ExnTypeError "Cannot read properties of undefined (reading 'url')".

Section Routes.
Variable B : Methods.t.

(** The callback registered for each route. *)
Definition handler (r : Route) (params : Params) (body : JsVal)
  : Async GenericWebDriverResponse :=
  match r with
  | GET_status =>
      rdy <- Methods.ready B ;;
      Return (Success (JObj [("ready", JBool rdy);
                             ("message", JStr (if rdy then "ok" else "busy"))]))
  | GET_shutdown =>
      Methods.shutdown B ;;
      server_close ;;
      Return (Success (JObj []))
  | POST_session =>
      created <- Methods.createSession B ;;
      if negb (truthy (id_value created)) then
        Return SessionNotCreatedError
      else
        Return (Success (JObj [("sessionId", id_value created);
                               ("capabilities", JObj [])]))
  | POST_session_url =>
      match get_property body "url" with
      | None => Throw null_body
      | Some u =>
          if truthy u then
            Methods.navigateTo B (sessionId params) u ;;
            Return (Success (JObj []))
          else Return InvalidArgumentError
      end
  | GET_session_screenshot =>
      png <- Methods.screenshot B (sessionId params) ;;
      Return (Success (JStr (toString_base64 png)))
  | DELETE_session_window =>
      Methods.closeSession B (sessionId params) ;;
      Return (Success (JObj []))
  | DELETE_session =>
      Methods.closeSession B (sessionId params) ;;
      Return (Success (JObj []))
  | GET_session_title =>
      title <- Methods.getTitle B (sessionId params) ;;
      Return (Success (JStr title))
  | catch_all => Return UnknownCommandError
  end.

(** [apiWrapper(fn)]: await the callback, turn what it throws into a
    response, send the status and the [{value: ...}] envelope. *)
Definition apiWrapper
  (fn : Params -> JsVal -> Async GenericWebDriverResponse) (req : Request)
  : Async Wire :=
  response <-
    try_catch (fn (params req) (body req))
      (fun error =>
         match instanceof_Response error with
         | Some r => Return r
         | None =>
             log LogError [LStr "Caught error:"; LExn error] ;;
             Return UnknownError
         end) ;;
  Return (mkWire (httpStatusCode response)
                 (JObj [("value", value response)])).

(** A request through the middleware chain: the logger, then the
    wrapped callback of the matched route. *)
Definition dispatch (req : Request) : Async Wire :=
  log LogInfo [LStr (method req); LStr (url req); LVal (body req)] ;;
  apiWrapper (handler (route req)) req.
End Routes.

(** ** class GenericSingleSessionWebDriverServer *)

Definition ready : Async bool :=
  sid <- this_sessionId_ ;;
  Return (String.eqb sid "").

(** The test [!this.sessionId_ || sessionId != this.sessionId_] shared by
    [navigateTo], [getTitle] and [closeSession]. *)
Definition not_the_session (current sessionId : string) : bool :=
  negb (str_truthy current) || negb (String.eqb sessionId current).

Definition closeSession (sessionId : string) : Async unit :=
  current <- this_sessionId_ ;;
  if not_the_session current sessionId then
    Return tt
  else
    log LogDebug [LStr "Session ID"; LStr current; LStr "released"] ;;
    set_sessionId_ "" ;;
    t <- this_timeout_ ;;
    clearTimeout t ;;
    set_timeout_ None ;;
    try_catch (await_hook closeSingleSession)
      (fun error => log LogError [LExn error]).

Definition shutdown : Async unit :=
  current <- this_sessionId_ ;;
  (if str_truthy current
   then Spawn (closeSession current) (Return tt)
   else Return tt) ;;
  await_hook shutdownSingleSession.

Definition createSession : Async (option string) :=
  current <- this_sessionId_ ;;
  if str_truthy current then
    log LogError [LStr "createSession() called when we were not ready!"] ;;
    Return None
  else
    bytes <- await_randomBytes NUM_RANDOM_ID_BYTES ;;
    set_sessionId_ (toString_hex bytes) ;;
    created <- this_sessionId_ ;;
    log LogDebug [LStr "Session ID"; LStr created; LStr "created"] ;;
    fl <- this_flags ;;
    h <- setTimeout ActivityTimeout
           (idleTimeoutSeconds fl * MILLISECONDS_PER_SECOND) ;;
    set_timeout_ (Some h) ;;
    sid <- this_sessionId_ ;;
    Return (Some sid).

(** The function armed by [createSession]; it reads [this.sessionId_]
    when it runs. *)
Definition run_callback (cb : Callback) : Async unit :=
  match cb with
  | ActivityTimeout =>
      log LogInfo [LStr "Activity timeout.  Releasing session."] ;;
      current <- this_sessionId_ ;;
      Spawn (closeSession current) (Return tt)
  end.

Definition navigateTo (sessionId : string) (url : JsVal) : Async unit :=
  current <- this_sessionId_ ;;
  if not_the_session current sessionId then
    Throw (ExnResponse InvalidSessionIdError)
  else
    timeout_refresh ;;
    await_hook (navigateToSingleSession url).

Definition title_of_the_page : string := "Title of the page".

Definition getTitle (sessionId : string) : Async string :=
  current <- this_sessionId_ ;;
  if not_the_session current sessionId then
    Throw (ExnResponse InvalidSessionIdError)
  else
    timeout_refresh ;;
    Return title_of_the_page.

(** The hooks as the class itself defines them, for a backend that
    overrides none: navigation and close throw, shutdown does nothing. *)
Definition default_hooks : Env :=
  fun c =>
    match c with
    | HookCall (navigateToSingleSession _) =>
        Some (ExnResponse InvalidSessionIdError)
    | HookCall closeSingleSession => Some (ExnResponse InvalidSessionIdError)
    | HookCall shutdownSingleSession => None
    | randomBytes _ => None
    end.

(** The single-session class overrides all but [screenshot]. *)
Definition GenericSingleSessionWebDriverServer : Methods.t :=
  Methods.make ready shutdown createSession navigateTo
    GenericWebDriverServer.screenshot getTitle closeSession.

(** ** Calls of the lifecycle manager *)

(** The runtime fires timer [h] if it is pending, and runs its
    callback. *)
Definition fire (h : Handle) : Async unit :=
  Read (fun w =>
    match nth_error (timers w) h with
    | Some t =>
        match status t with
        | Pending =>
            Modify (with_timers (update_timer h (set_status Fired)))
              (run_callback (callback t))
        | _ => Return tt
        end
    | None => Return tt
    end).

(** What can be asked of the lifecycle manager: its five methods, called
    by the routes, and the firing of a timer, called by the runtime. *)
Inductive Operation : Type :=
| op_createSession
| op_navigateTo (sessionId : string) (url : JsVal)
| op_getTitle (sessionId : string)
| op_closeSession (sessionId : string)
| op_shutdown
| op_timer_fires (h : Handle).

Definition discard {A : Type} (m : Async A) : Async unit :=
  m ;; Return tt.

(** A call whose caller handles its error, whatever it is. *)
Definition attempt (m : Async unit) : Async unit :=
  try_catch m (fun _ => Return tt).

Definition program (op : Operation) : Async unit :=
  match op with
  | op_createSession => discard createSession
  | op_navigateTo sid u => navigateTo sid u
  | op_getTitle sid => discard (getTitle sid)
  | op_closeSession sid => closeSession sid
  | op_shutdown => shutdown
  | op_timer_fires h => fire h
  end.

(** A request served by the single-session server: dispatch it and send
    the wire response. *)
Definition serve (req : Request) : Async unit :=
  wire <- dispatch GenericSingleSessionWebDriverServer req ;;
  modify (emit (Responded (statusCode wire) (jsonBody wire))).

(** ** The event loop *)

(** The server between two turns of the loop: the world and the calls
    that are suspended, oldest first. *)
Record Config : Type := mkConfig {
  world : World;
  pool : list (Async unit)
}.

(** A turn of the loop: a request arrives, a method is called or a timer
    goes off, or what the [i]-th suspended call waits for settles. *)
Inductive Event : Type :=
| Incoming (req : Request)
| Invoke (op : Operation)
| Settle (i : nat) (err : option Exception).

Fixpoint remove_nth {A : Type} (i : nat) (l : list A) : list A :=
  match l, i with
  | [], _ => []
  | _ :: rest, O => rest
  | x :: rest, S i' => x :: remove_nth i' rest
  end.

(** Run one synchronous part of [m]; what is then suspended joins the
    pool. *)
Definition start (m : Async unit) (c : Config) : Config :=
  let '(w, sp, r) := run_sync m (world c) in
  mkConfig (note_rejection r w) (pool c ++ sp ++ detached r)%list.

Definition step (e : Event) (c : Config) : Config :=
  match e with
  | Incoming req => start (serve req) c
  | Invoke op => start (attempt (program op)) c
  | Settle i err =>
      match nth_error (pool c) i with
      | Some t =>
          let (w, m) := resume t err (world c) in
          start m (mkConfig w (remove_nth i (pool c)))
      | None => c
      end
  end.

Definition run (events : list Event) (c : Config) : Config :=
  fold_left (fun c e => step e c) events c.

(** The server right after construction, nothing suspended. *)
Definition boot (fl : Flags) (rnd : nat -> byte) : Config :=
  mkConfig (initial fl rnd) [].

(** ** Operations one after the other *)

Definition awaited {A : Type} (m : Async A) : option Call :=
  match m with
  | AwaitRandomBytes n _ => Some (randomBytes n)
  | AwaitHook h _ => Some (HookCall h)
  | _ => None
  end.

(** Let the suspended calls [ts] complete, each settled as [env] says;
    returns the calls they leave suspended in turn. *)
Definition finish (env : Env) (ts : list (Async unit)) (w : World)
  : World * list (Async unit) :=
  fold_left
    (fun (acc : World * list (Async unit)) t =>
       let (w0, left) := acc in
       let err := match awaited t with Some c => env c | None => None end in
       let (w1, m) := resume t err w0 in
       let '(w2, sp, r) := exec env m w1 in
       (match r with
        | Threw e => emit (UnhandledRejection e) w2
        | Returned _ => w2
        end, (left ++ sp)%list))
    ts (w, []).

(** A call made on a quiet server and run until the server is quiet
    again: the call itself, then the children it dropped. *)
Definition complete {A : Type} (env : Env) (m : Async A) (w : World)
  : World * list (Async unit) * Completion A :=
  let '(w1, sp, r) := exec env m w in
  let (w2, left) := finish env sp w1 in
  (w2, left, r).

(** One operation run to completion, with the platform behaving as
    [env]. *)
Definition run_op (env : Env) (op : Operation) (w : World) : World :=
  fst (fst (complete env (program op) w)).

Definition run_ops (ops : list (Operation * Env)) (w : World) : World :=
  fold_left (fun w '(op, env) => run_op env op w) ops w.

(** *** Operations one after the other, as turns of the event loop *)



(** *** Concrete data for the examples *)

Definition example_flags : Flags := mkFlags 4444 None 120.

(** A random source that counts: byte [n] is [n mod 256]. *)
Definition example_entropy (n : nat) : byte :=
  match Byte.of_nat (n mod 256) with
  | Some b => b
  | None => x00
  end.

Definition example_world : World := initial example_flags example_entropy.

(** The server once [listen()] has been called. *)
Definition example_listening : World :=
  fst (fst (exec default_hooks listen example_world)).

(** The listening server after one successful [createSession]. *)
Definition example_active : World :=
  run_op default_hooks op_createSession example_listening.

Definition example_id : string := "000102030405060708090a0b0c0d0e0f".

Definition post_session : Request :=
  mkRequest "POST" "/session" POST_session (mkParams "") (JObj []).

Definition get_shutdown : Request :=
  mkRequest "GET" "/shutdown" GET_shutdown (mkParams "") (JObj []).

Definition delete_session (sid : string) : Request :=
  mkRequest "DELETE" ("/session/" ++ sid) DELETE_session (mkParams sid)
    (JObj []).

(** A navigation request whose body names the address [href], not
    [url]. *)
Definition post_url_without_url (sid : string) : Request :=
  mkRequest "POST" ("/session/" ++ sid ++ "/url") POST_session_url
    (mkParams sid) (JObj [("href", JStr "http://example.com")]).

Definition post_url (sid : string) (address : string) : Request :=
  mkRequest "POST" ("/session/" ++ sid ++ "/url") POST_session_url
    (mkParams sid) (JObj [("url", JStr address)]).

Definition get_title (sid : string) : Request :=
  mkRequest "GET" ("/session/" ++ sid ++ "/title") GET_session_title
    (mkParams sid) (JObj []).

(** The wire responses sent so far, oldest first. *)
Definition responses (w : World) : list Wire :=
  flat_map (fun e =>
              match e with
              | Responded st b => [mkWire st b]
              | _ => []
              end) (trace w).

(** ** Notions used by the statements *)

Definition is_pending (t : Timer) : bool :=
  match status t with
  | Pending => true
  | _ => false
  end.

(** The server is idle when it holds no session id. *)
Definition idle (w : World) : Prop := sessionId_ (this w) = "".

Definition active (w : World) : Prop := sessionId_ (this w) <> "".

(** The session ids the server still holds: the one in its field and the
    ones its pending timers were armed for. *)
Definition session_ids (w : World) : list string :=
  ((if str_truthy (sessionId_ (this w)) then [sessionId_ (this w)] else [])
   ++ map armed_for (filter is_pending (timers w)))%list.

Definition at_most_one_session (w : World) : Prop :=
  forall a b, In a (session_ids w) -> In b (session_ids w) -> a = b.

(** The session id is empty exactly when the timer handle is [null]. *)
Definition handle_inv (w : World) : Prop :=
  sessionId_ (this w) = "" <-> timeout_ (this w) = None.

(** The server object and the timer table, the part of the world the
    lifecycle depends on. *)
Definition state (w : World) : Server * list Timer := (this w, timers w).

(** The field and the timer table agree: an idle server has no handle and
    no pending timer; an active one has a handle to a pending timer armed
    for its session, and no other pending timer. *)
Definition consistent_state (s : Server) (ts : list Timer) : Prop :=
  match timeout_ s with
  | None =>
      sessionId_ s = "" /\
      forall h t, nth_error ts h = Some t -> status t <> Pending
  | Some h =>
      sessionId_ s <> "" /\
      (exists t, nth_error ts h = Some t /\ status t = Pending /\
                 armed_for t = sessionId_ s) /\
      forall h' t, h' <> h -> nth_error ts h' = Some t -> status t <> Pending
  end.

Definition consistent (w : World) : Prop :=
  consistent_state (this w) (timers w).

(** The server object and the timer table after a successful close. *)
Definition close_state (s : Server) (ts : list Timer) : Server * list Timer :=
  (mkServer (flags s) (server s) "" None,
   match timeout_ s with
   | Some h => update_timer h cancel ts
   | None => ts
   end).

(** ... after [createSession] has committed [id]. *)
Definition create_state (s : Server) (ts : list Timer) (id : string)
  : Server * list Timer :=
  (mkServer (flags s) (server s) id (Some (length ts)),
   (ts ++ [mkTimer ActivityTimeout
             (idleTimeoutSeconds (flags s) * MILLISECONDS_PER_SECOND) id
             Pending])%list).

(** ... after [this.timeout_.refresh()]. *)
Definition refresh_state (s : Server) (ts : list Timer)
  : Server * list Timer :=
  (s, match timeout_ s with
      | Some h => update_timer h rearm ts
      | None => ts
      end).

(** What [apiWrapper] sends for a response. *)
Definition wire_of (r : GenericWebDriverResponse) : Wire :=
  mkWire (httpStatusCode r) (JObj [("value", value r)]).

(** The response [apiWrapper] settles on, given how its callback ended. *)
Definition response_of (c : Completion GenericWebDriverResponse)
  : GenericWebDriverResponse :=
  match c with
  | Returned r => r
  | Threw (ExnResponse r) => r
  | Threw _ => UnknownError
  end.

(** A parsed JSON body (an object or an array) with no [url] field. *)
Definition lacks_url (body : JsVal) : bool :=
  match body with
  | JObj fields => negb (existsb (fun kv => String.eqb "url" (fst kv)) fields)
  | JArr _ => true
  | _ => false
  end.

(** The request line the logger writes. *)
Definition request_log (req : Request) : Effect :=
  Logged LogInfo [LStr (method req); LStr (url req); LVal (body req)].

Definition released_log (id : string) : Effect :=
  Logged LogDebug [LStr "Session ID"; LStr id; LStr "released"].

(** What the close hook leaves in the trace once it has settled. *)
Definition close_hook_settled (env : Env) : list Effect :=
  Completed (HookCall closeSingleSession) (env (HookCall closeSingleSession))
  :: match env (HookCall closeSingleSession) with
     | Some e => [Logged LogError [LExn e]]
     | None => []
     end.

Definition invalid_session {A : Type} (c : Completion A) : Prop :=
  c = Threw (ExnResponse InvalidSessionIdError).

(** The world after [this.timeout_.refresh()] on handle [h]. *)
Definition refreshed (h : Handle) (w : World) : World :=
  emit (Refreshed h) (with_timers (update_timer h rearm) w).

(** A call of hook [hk] made and settled as [env] says. *)
Definition hook_called (env : Env) (hk : Hook) (w : World) : World :=
  emit (Completed (HookCall hk) (env (HookCall hk)))
    (emit (Invoked (HookCall hk)) w).

(** What is left suspended of a [closeSession] whose promise was
    dropped: the wait for the close hook, inside its [try]. *)
Definition pending_close : Async unit :=
  try_catch (await_hook closeSingleSession)
    (fun error => log LogError [LExn error]).

(** A backend whose shutdown hook fails. *)
Definition failing_shutdown : Env :=
  fun c =>
    match c with
    | HookCall shutdownSingleSession =>
        Some (ExnOther (JStr "device unreachable"))
    | _ => None
    end.

(** What the synchronous part of a matching [closeSession] leaves in the
    trace, when a session is active. *)
Definition close_effects (w : World) : list Effect :=
  if str_truthy (sessionId_ (this w))
  then [released_log (sessionId_ (this w)); ClearTimeout (timeout_ (this w));
        Invoked (HookCall closeSingleSession)]
  else [].

(** The shutdown hook called and settled. *)
Definition shutdown_hook_effects (env : Env) : list Effect :=
  [Invoked (HookCall shutdownSingleSession);
   Completed (HookCall shutdownSingleSession)
     (env (HookCall shutdownSingleSession))].

(** The call [shutdown] leaves suspended: the close it did not await. *)
Definition dropped_close (w : World) : list (Async unit) :=
  if str_truthy (sessionId_ (this w)) then [pending_close] else [].

(** What [apiWrapper] logs for a thrown value that is not a response. *)
Definition caught_log (e : Exception) : list Effect :=
  match instanceof_Response e with
  | Some _ => []
  | None => [Logged LogError [LStr "Caught error:"; LExn e]]
  end.

(** [m] ends by returning, whatever the world it reads and however what
    it waits for settles.  (A child it dropped is another promise.) *)
Fixpoint returns {A : Type} (m : Async A) : Prop :=
  match m with
  | Return _ => True
  | Throw _ => False
  | Read k => forall w, returns (k w)
  | Modify _ k => returns k
  | AwaitRandomBytes _ k => forall o, returns (k o)
  | AwaitHook _ k => forall o, returns (k o)
  | Spawn _ k => returns k
  end.

(** *** An invariant kept at every turn of the event loop *)

Section Keeps.
Variable I : World -> Prop.

(** [keeps m post w]: started in [w], the synchronous part of [m] ends in
    a world where [post] holds, and each later part of [m] or of a child
    it dropped, started in any world where [I] holds, ends in a world
    where [I] holds. *)
Fixpoint keeps {A : Type} (m : Async A) (post : World -> Prop) (w : World)
  {struct m} : Prop :=
  match m with
  | Return _ => post w
  | Throw e => post (emit (UnhandledRejection e) w)
  | Read k => keeps (k w) post w
  | Modify f k => keeps k post (f w)
  | AwaitRandomBytes n k =>
      post (emit (Invoked (randomBytes n)) w) /\
      forall w', I w' ->
        (forall e,
           keeps (k (Rejected e)) I
             (emit (Completed (randomBytes n) (Some e)) w')) /\
        let drawn := draw n (emit (Completed (randomBytes n) None) w') in
        keeps (k (Resolved (fst drawn))) I (snd drawn)
  | AwaitHook h k =>
      post (emit (Invoked (HookCall h)) w) /\
      forall w', I w' -> forall err,
        keeps (k (match err with
                  | Some e => Rejected e
                  | None => Resolved tt
                  end)) I
          (emit (Completed (HookCall h) err) w')
  | Spawn child k => keeps child (fun w1 => keeps k post w1) w
  end.

(** A suspended call that keeps [I] however what it waits for settles. *)
Definition keeps_on_resume (t : Async unit) : Prop :=
  forall err w', I w' ->
    keeps (snd (resume t err w')) I (fst (resume t err w')).

(** A configuration whose world satisfies [I] and whose suspended calls
    all keep it. *)
Definition kept (c : Config) : Prop :=
  I (world c) /\ Forall keeps_on_resume (pool c).
End Keeps.

(** *** Calls of [createSession] that do not overlap *)

(** A suspended call that waits for random bytes.  In this server only
    [createSession] does, between its test of [this.sessionId_] and its
    assignment to it. *)
Definition draws_bytes {A : Type} (m : Async A) : bool :=
  match m with
  | AwaitRandomBytes _ _ => true
  | _ => false
  end.

(** How many calls of [createSession] are between their test and their
    assignment. *)
Definition creating (c : Config) : nat :=
  length (filter draws_bytes (pool c)).

(** From [w] to [w'] the session id is cleared or left as it is. *)
Definition keeps_id (w w' : World) : Prop :=
  idle w' \/ sessionId_ (this w') = sessionId_ (this w).

(** [orderly committing m post w]: started in [w], the synchronous part
    of [m] ends in a world where [post] holds; unless it is [committing],
    it clears the session id or leaves it as it is, and it waits for
    random bytes only with the server idle; each later part of [m] or of
    a child it dropped, started in any consistent world, ends in a
    consistent world, under the same conditions; the part that follows
    the arrival of random bytes is the [committing] one: it is started
    with the server idle and does not wait for random bytes again. *)
Fixpoint orderly {A : Type} (committing : bool) (m : Async A)
  (post : World -> Prop) (w : World) {struct m} : Prop :=
  match m with
  | Return _ => post w
  | Throw e => post (emit (UnhandledRejection e) w)
  | Read k => orderly committing (k w) post w
  | Modify f k =>
      (committing = false -> keeps_id w (f w)) /\
      orderly committing k post (f w)
  | AwaitRandomBytes n k =>
      committing = false /\ idle w /\
      post (emit (Invoked (randomBytes n)) w) /\
      forall w', consistent w' -> idle w' ->
        (forall e,
           orderly true (k (Rejected e)) consistent
             (emit (Completed (randomBytes n) (Some e)) w')) /\
        let drawn := draw n (emit (Completed (randomBytes n) None) w') in
        orderly true (k (Resolved (fst drawn))) consistent (snd drawn)
  | AwaitHook h k =>
      post (emit (Invoked (HookCall h)) w) /\
      forall w', consistent w' -> forall err,
        orderly false (k (match err with
                          | Some e => Rejected e
                          | None => Resolved tt
                          end)) consistent
          (emit (Completed (HookCall h) err) w')
  | Spawn child k =>
      orderly committing child (fun w1 => orderly committing k post w1) w
  end.

Definition resumes_in_order {A : Type} (r : Async A) : Prop :=
  awaited r <> None ->
  forall err w', consistent w' -> (draws_bytes r = true -> idle w') ->
    orderly (draws_bytes r) (snd (resume r err w')) consistent
      (fst (resume r err w')).

Definition orderly_on_resume (t : Async unit) : Prop :=
  forall err w', consistent w' -> (draws_bytes t = true -> idle w') ->
    orderly (draws_bytes t) (snd (resume t err w')) consistent
      (fst (resume t err w')).

(** A configuration in order: its world is consistent, the server is idle
    while a call of [createSession] waits for its bytes, and every
    suspended call is orderly. *)
Definition in_order (c : Config) : Prop :=
  consistent (world c) /\
  (creating c <> 0 -> idle (world c)) /\
  Forall orderly_on_resume (pool c).

(** ** The command line *)

(** The options the module registers with [yargs] and the check it puts
    on them. *)
Module CommandLine.
Import QArith Qround.
Local Open Scope Q_scope.

(** A JavaScript number: [NaN], an infinity, or a finite value.  A finite
    double is a rational, and [Math.floor] and the comparisons are exact on
    doubles, so the finite values are kept as rationals. *)
Inductive Number : Type :=
| NaN
| Infinity (negative : bool)
| Finite (q : Q).

Definition Math_floor (x : Number) : Number :=
  match x with
  | Finite q => Finite (inject_Z (Qfloor q))
  | _ => x
  end.

(** [x != y] on numbers: [NaN] differs from everything. *)
Definition not_equal (x y : Number) : bool :=
  match x, y with
  | Finite p, Finite q => negb (Qeq_bool p q)
  | Infinity a, Infinity b => negb (Bool.eqb a b)
  | _, _ => true
  end.

(** [x < y] on numbers; a comparison with [NaN] is false. *)
Definition less_than (x y : Number) : bool :=
  match x, y with
  | NaN, _ | _, NaN => false
  | Infinity a, Infinity b => a && negb b
  | Infinity a, Finite _ => a
  | Finite _, Infinity b => negb b
  | Finite p, Finite q => negb (Qle_bool q p)
  end.

(** [x > y] *)
Definition greater_than (x y : Number) : bool := less_than y x.

(** [yargs.argv] as the parser hands it to the check: [port] and
    [idle-timeout-seconds] are of type ['number'], [log-path] is an
    optional string. *)
Record Argv : Type := mkArgv {
  port : Number;
  logPath : option string;
  idleTimeoutSeconds : Number
}.

(** What the function given to [.check] does: it returns a value or
    throws [new Error(message)]. *)
Inductive Checked : Type :=
| Ok (result : bool)
| Error (message : string).

Definition check (flags : Argv) : Checked :=
  if not_equal (Math_floor (port flags)) (port flags) then
    Error "port must be an integer!"
  else if less_than (port flags) (Finite 1)
          || greater_than (port flags) (Finite 65535) then
    Error "port must be between 1 and 65535!"
  else Ok true.

(** The rational [q] is the integer [n]. *)
Definition whole (q : Q) (n : Z) : Prop := q == inject_Z n.
End CommandLine.

(** ** More notions used by the statements *)

(** *** Backends and platforms for the examples *)

(** A backend whose [createSession] names every session [id]. *)
Definition names_its_sessions (id : string) : Methods.t :=
  Methods.make GenericWebDriverServer.ready GenericWebDriverServer.shutdown
    (Return (Some id)) GenericWebDriverServer.navigateTo
    GenericWebDriverServer.screenshot GenericWebDriverServer.getTitle
    GenericWebDriverServer.closeSession.

(** A backend whose [screenshot] returns the buffer [png]. *)
Definition takes_screenshots (png : list byte) : Methods.t :=
  Methods.make GenericWebDriverServer.ready GenericWebDriverServer.shutdown
    GenericWebDriverServer.createSession GenericWebDriverServer.navigateTo
    (fun _ => Return png) GenericWebDriverServer.getTitle
    GenericWebDriverServer.closeSession.

(** A platform whose random source fails. *)
Definition no_entropy : Env :=
  fun c =>
    match c with
    | randomBytes _ => Some (ExnOther (JStr "entropy source unavailable"))
    | HookCall _ => None
    end.

(** *** Encodings *)

(** The value of a hex digit. *)
Definition hex_value (c : ascii) : N :=
  let n := N_of_ascii c in
  if (n <=? 57)%N then n - 48 else n - 87.

(** The characters of a base64 text: letters, digits, [+], [/] and the
    padding [=]. *)
Definition is_base64_char (c : ascii) : bool :=
  let n := N_of_ascii c in
  ((65 <=? n) && (n <=? 90) || (97 <=? n) && (n <=? 122) ||
   (48 <=? n) && (n <=? 57) || (n =? 43) || (n =? 47) || (n =? 61))%N.

(** *** Rejections no one handles *)

(** The rejections of promises that no one awaited or caught, oldest
    first. *)
Definition unhandled (w : World) : list Exception :=
  flat_map (fun e =>
              match e with
              | UnhandledRejection x => [x]
              | _ => []
              end) (trace w).

Definition all_handled (w : World) : Prop := unhandled w = [].

(** *** Requests and responses, counted *)

(** How many responses have been sent. *)
Definition answered (w : World) : nat := length (responses w).

(** How many requests have come in. *)
Definition incoming (events : list Event) : nat :=
  length (filter (fun e => match e with Incoming _ => true | _ => false end)
            events).

(** [answers n m w]: started in [w], [m] sends [n] more responses by the
    time it is over, however what it waits for settles and whatever the
    world it is resumed in; the children it drops send none. *)
Fixpoint answers {A : Type} (n : nat) (m : Async A) (w : World) {struct m}
  : Prop :=
  match m with
  | Return _ | Throw _ => n = 0
  | Read k => answers n (k w) w
  | Modify f k =>
      exists sent,
        answered (f w) = answered w + sent /\ sent <= n /\
        answers (n - sent) k (f w)
  | AwaitRandomBytes _ k => forall o w', answers n (k o) w'
  | AwaitHook _ k => forall o w', answers n (k o) w'
  | Spawn child k => answers 0 child w /\ forall w1, answers n k w1
  end.

(** A suspended call that still has [n] responses to send. *)
Definition owes (n : nat) (t : Async unit) : Prop :=
  forall err w', answers n (snd (resume t err w')) (fst (resume t err w')).

Definition owes_when_suspended {A : Type} (n : nat) (r : Async A) : Prop :=
  match r with
  | AwaitRandomBytes _ _ | AwaitHook _ _ =>
      forall err w', answers n (snd (resume r err w')) (fst (resume r err w'))
  | _ => n = 0
  end.

(** The responses sent and those the suspended calls still have to send
    add up to [total]. *)
Definition balanced (total : nat) (c : Config) : Prop :=
  exists owed,
    Forall2 owes owed (pool c) /\
    answered (world c) + list_sum owed = total.

(** *** Sessions, counted *)

(** The line [createSession] logs for a new session. *)
Definition is_created_log (e : Effect) : bool :=
  match e with
  | Logged LogDebug [LStr "Session ID"; LStr _; LStr "created"] => true
  | _ => false
  end.

(** A call of the close hook of the backend. *)
Definition is_close_call (e : Effect) : bool :=
  match e with
  | Invoked (HookCall closeSingleSession) => true
  | _ => false
  end.

Definition sessions_created (w : World) : nat :=
  length (filter is_created_log (trace w)).

Definition sessions_closed (w : World) : nat :=
  length (filter is_close_call (trace w)).

Definition sessions_open (w : World) : nat :=
  if str_truthy (sessionId_ (this w)) then 1 else 0.

(** No session is closed that was not created. *)
Definition closes_covered (w : World) : Prop :=
  sessions_closed w + sessions_open w <= sessions_created w.

(** Every session created has been closed or is the open one. *)
Definition closes_balanced (w : World) : Prop :=
  sessions_created w = sessions_closed w + sessions_open w.

(** One timer has been armed for each session created. *)
Definition one_timer_each (w : World) : Prop :=
  length (timers w) = sessions_created w.

(** *** Requests from outside *)

(** An event that comes from outside the server: a request, a timer of
    the runtime, a settlement.  In the running server the methods are
    called by the routes and by the timer only. *)
Definition from_outside (e : Event) : bool :=
  match e with
  | Incoming _ | Invoke (op_timer_fires _) | Settle _ _ => true
  | Invoke _ => false
  end.

(** The navigation hook has only been called with urls that are truthy. *)
Definition navigates_to_urls (w : World) : Prop :=
  forall u, In (Invoked (HookCall (navigateToSingleSession u))) (trace w) ->
            truthy u = true.

(** The routes that wait for nothing. *)
Definition answers_at_once (r : Route) : bool :=
  match r with
  | GET_status | GET_session_title | GET_session_screenshot | catch_all => true
  | _ => false
  end.

(** ** class TizenWebDriverServer *)

(** The backend for Tizen overrides two hooks, each a call of
    [loadOnTizen(this.flags, this.log, url)]: navigation with the url it is
    given, close with [null], which sends the device back to the home
    screen.  The shutdown hook is not overridden.  [loadOnTizen] itself is
    an operation of the platform. *)
Module TizenWebDriverServer.
Definition loadOnTizen_url (h : Hook) : option JsVal :=
  match h with
  | navigateToSingleSession url => Some url
  | closeSingleSession => Some JNull
  | shutdownSingleSession => None
  end.
End TizenWebDriverServer.

(** ** Laws of the semantics *)

Lemma exec_bind {A B : Type} (env : Env) (m : Async A) (f : A -> Async B)
  (w : World) :
  exec env (bind m f) w =
  let '(w1, sp1, r) := exec env m w in
  match r with
  | Returned a =>
      let '(w2, sp2, r2) := exec env (f a) w1 in (w2, (sp1 ++ sp2)%list, r2)
  | Threw e => (w1, sp1, Threw e)
  end.
Proof.
  revert B f w.
  induction m using Async_ind; intros B g w; cbn [bind exec].
  - destruct (exec env (g a) w) as [[w2 sp2] r2]; reflexivity.
  - reflexivity.
  - apply H.
  - apply IHm.
  - destruct (env (randomBytes n)); [apply H|].
    destruct (draw n _); apply H.
  - apply H.
  - destruct (run_sync m1 w) as [[w1 sp1] c].
    rewrite IHm2.
    destruct (exec env m2 (note_rejection c w1)) as [[w2 sp2] r].
    destruct r as [a|e]; [|reflexivity].
    destruct (exec env (g a) w2) as [[w3 sp3] r3].
    rewrite <- !app_assoc; reflexivity.
Qed.

Lemma exec_try_catch {A : Type} (env : Env) (m : Async A)
  (handler : Exception -> Async A) (w : World) :
  exec env (try_catch m handler) w =
  let '(w1, sp1, r) := exec env m w in
  match r with
  | Returned a => (w1, sp1, Returned a)
  | Threw e =>
      let '(w2, sp2, r2) := exec env (handler e) w1 in
      (w2, (sp1 ++ sp2)%list, r2)
  end.
Proof.
  revert w.
  induction m using Async_ind; intros w; cbn [try_catch exec].
  - reflexivity.
  - destruct (exec env (handler e) w) as [[w2 sp2] r2]; reflexivity.
  - apply H.
  - apply IHm.
  - destruct (env (randomBytes n)); [apply H|].
    destruct (draw n _); apply H.
  - apply H.
  - destruct (run_sync m1 w) as [[w1 sp1] c].
    rewrite IHm2.
    destruct (exec env m2 (note_rejection c w1)) as [[w2 sp2] r].
    destruct r as [a|e]; [reflexivity|].
    destruct (exec env (handler e) w2) as [[w3 sp3] r3].
    rewrite <- !app_assoc; reflexivity.
Qed.

(** [exec] is the event loop taking its turns back to back: one
    synchronous part, then the settlement of what it waits for, and so
    on. *)
Lemma exec_run_sync {A : Type} (env : Env) (m : Async A) (w : World) :
  exec env m w =
  let '(w1, sp1, r) := run_sync m w in
  match r, awaited r with
  | Return a, _ => (w1, sp1, Returned a)
  | Throw e, _ => (w1, sp1, Threw e)
  | _, Some c =>
      let (w2, m') := resume r (env c) w1 in
      let '(w3, sp3, r3) := exec env m' w2 in
      (w3, (sp1 ++ sp3)%list, r3)
  | _, None => (w1, sp1, Threw (ExnOther JUndefined))
  end.
Proof.
  revert w.
  induction m using Async_ind; intros w; cbn [exec run_sync awaited resume].
  - reflexivity.
  - reflexivity.
  - rewrite H. reflexivity.
  - rewrite IHm. reflexivity.
  - destruct (env (randomBytes n)).
    + destruct (exec env (k (Rejected e)) _) as [[w3 sp3] r3]; reflexivity.
    + destruct (draw n _) as [bs w2].
      destruct (exec env (k (Resolved bs)) w2) as [[w3 sp3] r3]; reflexivity.
  - destruct (exec env _ _) as [[w3 sp3] r3]; reflexivity.
  - destruct (run_sync m1 w) as [[w1 sp1] c].
    rewrite IHm2.
    destruct (run_sync m2 (note_rejection c w1)) as [[w2 sp2] r].
    destruct r; cbn [awaited]; try reflexivity.
    + destruct (resume _ _ _) as [w3 m'].
      destruct (exec env m' w3) as [[w4 sp4] r4].
      rewrite <- !app_assoc; reflexivity.
    + destruct (resume _ _ _) as [w3 m'].
      destruct (exec env m' w3) as [[w4 sp4] r4].
      rewrite <- !app_assoc; reflexivity.
Qed.

Lemma returns_bind {A B : Type} (m : Async A) (f : A -> Async B) :
  returns m -> (forall a, returns (f a)) -> returns (bind m f).
Proof.
  intros Hm Hf. induction m using Async_ind; cbn [bind returns] in *;
    auto; contradiction.
Qed.

Lemma returns_try_catch {A : Type} (m : Async A)
  (handler : Exception -> Async A) :
  (forall e, returns (handler e)) -> returns (try_catch m handler).
Proof.
  intro Hh. induction m using Async_ind; cbn [try_catch returns] in *; auto.
Qed.

Lemma returns_exec {A : Type} (env : Env) (m : Async A) (w : World) :
  returns m -> exists w' sp a, exec env m w = (w', sp, Returned a).
Proof.
  revert w. induction m using Async_ind; intros w Hm;
    cbn [returns exec] in *; try contradiction; eauto.
  - destruct (env (randomBytes n)); [now apply H|].
    destruct (draw n _). now apply H.
  - destruct (run_sync m1 w) as [[w1 sp1] c].
    destruct (IHm2 (note_rejection c w1) Hm) as (w' & sp & a & ->). eauto.
Qed.

(** A computation that returns is never noted as rejected by the event
    loop, at its start or when it is resumed. *)
Lemma returns_run_sync {A : Type} (m : Async A) (w : World) :
  returns m ->
  let '(w1, _, r) := run_sync m w in
  note_rejection r w1 = w1 /\
  forall err w', returns (snd (resume r err w')).
Proof.
  revert w. induction m using Async_ind; intros w Hm;
    cbn [returns run_sync] in *.
  - split; [reflexivity|]. intros; exact I.
  - contradiction.
  - now apply H.
  - now apply IHm.
  - split; [reflexivity|]. intros err w'. cbn [resume].
    destruct err; [apply Hm|]. destruct (draw n _). apply Hm.
  - split; [reflexivity|]. intros err w'. apply Hm.
  - destruct (run_sync m1 w) as [[w1 sp1] c].
    specialize (IHm2 (note_rejection c w1) Hm).
    destruct (run_sync m2 (note_rejection c w1)) as [[w2 sp2] r].
    exact IHm2.
Qed.

(** ** Strings, buffers and bodies *)

Lemma str_truthy_true (s : string) : str_truthy s = true <-> s <> "".
Proof.
  destruct s; cbn; split; intro H; try discriminate; try reflexivity.
  now elim H.
Qed.

Lemma str_truthy_false (s : string) : str_truthy s = false <-> s = "".
Proof.
  destruct s; cbn; split; intro H; try discriminate; reflexivity.
Qed.

Lemma not_the_session_true (current sid : string) :
  not_the_session current sid = true <-> current = "" \/ sid <> current.
Proof.
  unfold not_the_session.
  rewrite orb_true_iff, !negb_true_iff, str_truthy_false, String.eqb_neq.
  reflexivity.
Qed.

Lemma not_the_session_false (current sid : string) :
  not_the_session current sid = false <-> current <> "" /\ sid = current.
Proof.
  unfold not_the_session.
  rewrite orb_false_iff, !negb_false_iff, str_truthy_true, String.eqb_eq.
  reflexivity.
Qed.




Lemma toString_hex_nonempty (bytes : list byte) :
  bytes <> [] -> toString_hex bytes <> "".
Proof. destruct bytes; [congruence | discriminate]. Qed.

Example toString_hex_known : toString_hex [x00; x7f; xa5; xff] = "007fa5ff".
Proof. reflexivity. Qed.

Example toString_base64_known :
  toString_base64 [x4d; x61; x6e] = "TWFu" /\
  toString_base64 [x4d; x61] = "TWE=" /\
  toString_base64 [x4d] = "TQ==" /\
  toString_base64 [xff; xfe; xfd; x00] = "//79AA==".
Proof. repeat split. Qed.


Lemma lookup_field_absent (k : string) (fields : list (string * JsVal)) :
  existsb (fun kv => String.eqb k (fst kv)) fields = false ->
  lookup_field k fields = None.
Proof.
  induction fields as [|[k' v] rest IH];
    cbn [existsb lookup_field fst]; [reflexivity|].
  intro H. apply orb_false_iff in H as [Hk Hrest].
  rewrite (IH Hrest), Hk. reflexivity.
Qed.

Lemma lacks_url_undefined (b : JsVal) :
  lacks_url b = true -> get_property b "url" = Some JUndefined.
Proof.
  destruct b; cbn [lacks_url get_property]; try discriminate; try reflexivity.
  intro H. apply negb_true_iff in H.
  now rewrite (lookup_field_absent _ _ H).
Qed.

(** ** The dispatcher *)

(** C2.  Whatever the callback of a route does, [apiWrapper] completes
    by returning a wire response and never throws: a returned response is
    used as it is, a thrown value that is a response becomes the result,
    any other thrown value is logged and replaced by [UnknownError]
    (status 500); the status sent is the response's [httpStatusCode] and
    the body is [{value: payload}].  The same holds for a request that
    goes through the whole chain ([dispatch]) of any backend.  And in
    every world and however the awaited operations settle, the wrapped
    callback ends by returning. *)
Theorem apiWrapper_total (env : Env)
  (fn : Params -> JsVal -> Async GenericWebDriverResponse)
  (B : Methods.t) (req : Request) (w : World) :
  (let '(w1, sp, c) := exec env (fn (params req) (body req)) w in
   let r := response_of c in
   let w2 :=
     match c with
     | Threw (ExnResponse _) | Returned _ => w1
     | Threw e => emit (Logged LogError [LStr "Caught error:"; LExn e]) w1
     end in
   exec env (apiWrapper fn req) w =
     (w2, sp, Returned (mkWire (httpStatusCode r) (JObj [("value", value r)]))) /\
   (forall r0, c = Returned r0 -> r = r0) /\
   (forall r0, c = Threw (ExnResponse r0) -> r = r0) /\
   (forall e, c = Threw e -> instanceof_Response e = None ->
      r = UnknownError /\ httpStatusCode r = 500%Z)) /\
  (exists w' sp' r',
     exec env (dispatch B req) w = (w', sp', Returned (wire_of r'))) /\
  returns (apiWrapper fn req) /\
  returns (dispatch B req).
Proof.
  assert (Hwrap : forall fn0 w0,
    let '(w1, sp, c) := exec env (fn0 (params req) (body req)) w0 in
    exec env (apiWrapper fn0 req) w0 =
      (match c with
       | Threw (ExnResponse _) | Returned _ => w1
       | Threw e => emit (Logged LogError [LStr "Caught error:"; LExn e]) w1
       end, sp, Returned (wire_of (response_of c)))).
  { intros fn0 w0. unfold apiWrapper.
    rewrite exec_bind, exec_try_catch.
    destruct (exec env (fn0 (params req) (body req)) w0) as [[w1 sp] c].
    destruct c as [r|[r| |]]; cbn; rewrite ?app_nil_r; reflexivity. }
  assert (Hret : forall fn0, returns (apiWrapper fn0 req)).
  { intro fn0. unfold apiWrapper. apply returns_bind; [|intro; exact I].
    apply returns_try_catch. intros [r| |]; exact I. }
  split; [|split; [|split; [apply Hret | apply (Hret (handler B (route req)))]]].
  - specialize (Hwrap fn w).
    destruct (exec env (fn (params req) (body req)) w) as [[w1 sp] c].
    split; [exact Hwrap|].
    repeat split; intros; subst; cbn in *; try reflexivity.
    destruct e; cbn in *; try discriminate; reflexivity.
    destruct e; cbn in *; try discriminate; reflexivity.
  - unfold dispatch. cbn [bind log modify exec].
    set (w0 := emit _ w).
    specialize (Hwrap (handler B (route req)) w0).
    destruct (exec env (handler B (route req) (params req) (body req)) w0)
      as [[w1 sp] c].
    eauto.
Qed.

Lemma apiWrapper_total_witness :
  let req := mkRequest "GET" "/session/none/title" GET_session_title
               (mkParams "none") (JObj []) in
  exec default_hooks
    (apiWrapper (handler GenericSingleSessionWebDriverServer GET_session_title)
       req) example_active =
  (example_active, [],
   Returned (mkWire 404
               (JObj [("value", JObj [("error", JStr "invalid session id")])]))).
Proof.
  exact (proj1 (proj1
           (apiWrapper_total default_hooks
              (handler GenericSingleSessionWebDriverServer GET_session_title)
              GenericSingleSessionWebDriverServer
              (mkRequest "GET" "/session/none/title" GET_session_title
                 (mkParams "none") (JObj []))
              example_active))).
Defined.

(** ** createSession *)



(** C4.  [createSession] on an active server logs an error and returns
    [null]; the [POST /session] route turns that into
    [SessionNotCreatedError], sent with status 500; the server object
    (session id and timer handle) and the timer table are as before. *)
Theorem createSession_when_active (env : Env) (w : World) (req : Request) :
  active w ->
  let w' :=
    emit (Logged LogError
            [LStr "createSession() called when we were not ready!"]) w in
  exec env createSession w = (w', [], Returned None) /\
  exec env (handler GenericSingleSessionWebDriverServer POST_session
              (params req) (body req)) w =
    (w', [], Returned SessionNotCreatedError) /\
  exec env (apiWrapper (handler GenericSingleSessionWebDriverServer
                          POST_session) req) w =
    (w', [],
     Returned (mkWire 500
                 (JObj [("value", JObj [("error", JStr "session not created")])]))) /\
  this w' = this w /\
  timers w' = timers w.
Proof.
  intros Hactive w'.
  apply str_truthy_true in Hactive.
  assert (Hcreate : exec env createSession w = (w', [], Returned None)).
  { unfold createSession. cbn [bind exec this_sessionId_ read].
    rewrite Hactive. reflexivity. }
  assert (Hhandler :
    exec env (handler GenericSingleSessionWebDriverServer POST_session
                (params req) (body req)) w =
    (w', [], Returned SessionNotCreatedError)).
  { cbn [handler GenericSingleSessionWebDriverServer Methods.createSession].
    rewrite exec_bind, Hcreate. reflexivity. }
  repeat apply conj; try reflexivity; try assumption.
  unfold apiWrapper. rewrite exec_bind, exec_try_catch, Hhandler.
  reflexivity.
Qed.

Lemma createSession_when_active_witness :
  active example_active /\
  exec default_hooks createSession example_active =
    (emit (Logged LogError
             [LStr "createSession() called when we were not ready!"])
       example_active, [], Returned None).
Proof.
  split; [discriminate|].
  exact (proj1 (createSession_when_active default_hooks example_active
                  post_session
                  ltac:(discriminate))).
Defined.

(** ** closeSession *)

Lemma exec_closeSession_other (env : Env) (w : World) (sid : string) :
  not_the_session (sessionId_ (this w)) sid = true ->
  exec env (closeSession sid) w = (w, [], Returned tt).
Proof.
  intro H. unfold closeSession. cbn [bind exec this_sessionId_ read].
  rewrite H. reflexivity.
Qed.

Lemma exec_closeSession_match (env : Env) (w : World) (sid : string) :
  not_the_session (sessionId_ (this w)) sid = false ->
  exists w',
    exec env (closeSession sid) w = (w', [], Returned tt) /\
    this w' = mkServer (flags (this w)) (server (this w)) "" None /\
    timers w' =
      match timeout_ (this w) with
      | Some h => update_timer h cancel (timers w)
      | None => timers w
      end /\
    entropy w' = entropy w /\ cursor w' = cursor w /\
    trace w' =
      (trace w ++
       [released_log (sessionId_ (this w));
        ClearTimeout (timeout_ (this w));
        Invoked (HookCall closeSingleSession)] ++
       close_hook_settled env)%list.
Proof.
  intro H. unfold closeSession. cbn [bind exec this_sessionId_ read].
  rewrite H. unfold close_hook_settled.
  cbn. destruct (env (HookCall closeSingleSession)) as [e|];
    destruct (timeout_ (this w)) as [h|]; cbn;
    (eexists; split; [reflexivity|]);
    cbn; rewrite <- ?app_assoc; cbn; repeat apply conj; reflexivity.
Qed.

(** C5.  [closeSession] never raises: it ends by returning in every world
    and however the close hook settles.  For an id that is not the active
    one, or on an idle server, it returns at once and the world is
    unchanged.  For the active id it clears the session id, cancels the
    timer and drops its handle, and calls the close hook; an error of the
    hook is logged and not raised.  Both [DELETE] routes therefore always
    answer 200 with [{value: {}}]. *)
Theorem closeSession_never_raises (env : Env) (w : World) (sid : string)
  (req : Request) :
  returns (closeSession sid) /\
  (exists w', exec env (closeSession sid) w = (w', [], Returned tt)) /\
  (idle w \/ sid <> sessionId_ (this w) ->
     exec env (closeSession sid) w = (w, [], Returned tt)) /\
  (active w /\ sid = sessionId_ (this w) ->
     exists w',
       exec env (closeSession sid) w = (w', [], Returned tt) /\
       sessionId_ (this w') = "" /\
       timeout_ (this w') = None /\
       (forall h, timeout_ (this w) = Some h ->
                  timer_status h w' <> Some Pending) /\
       trace w' =
         (trace w ++
          [released_log sid; ClearTimeout (timeout_ (this w));
           Invoked (HookCall closeSingleSession);
           Completed (HookCall closeSingleSession)
             (env (HookCall closeSingleSession))] ++
          match env (HookCall closeSingleSession) with
          | Some e => [Logged LogError [LExn e]]
          | None => []
          end)%list) /\
  (route req = DELETE_session \/ route req = DELETE_session_window ->
     exists w',
       exec env (dispatch GenericSingleSessionWebDriverServer req) w =
         (w', [], Returned (mkWire 200 (JObj [("value", JObj [])])))).
Proof.
  assert (Hany : forall w0 sid0,
            exists w', exec env (closeSession sid0) w0 = (w', [], Returned tt)).
  { intros w0 sid0.
    destruct (not_the_session (sessionId_ (this w0)) sid0) eqn:Hcheck.
    - exists w0. now apply exec_closeSession_other.
    - destruct (exec_closeSession_match env w0 sid0 Hcheck) as (w' & H & _).
      now exists w'. }
  split.
  { unfold closeSession. cbn [bind returns this_sessionId_ read].
    intro w0. destruct (not_the_session _ _); [exact I|].
    cbn. intros _ [[]|e]; exact I. }
  split; [apply Hany|]. split; [|split].
  - intro H. apply exec_closeSession_other.
    now apply not_the_session_true.
  - intros [Hactive Hsid].
    assert (Hcheck : not_the_session (sessionId_ (this w)) sid = false)
      by now apply not_the_session_false.
    destruct (exec_closeSession_match env w sid Hcheck)
      as (w' & Hexec & Hthis & Htimers & _ & _ & Htrace).
    exists w'. split; [exact Hexec|].
    rewrite Hthis. cbn [sessionId_ timeout_].
    do 2 (split; [reflexivity|]). split.
    + intros h Hh. unfold timer_status. rewrite Htimers, Hh.
      clear. generalize (timers w). revert h.
      induction h as [|h IH]; intros [|t l]; cbn; try discriminate.
      * unfold cancel. destruct (status t) eqn:E; cbn; rewrite ?E; discriminate.
      * apply IH.
    + rewrite Htrace, Hsid. reflexivity.
  - intros Hroute. unfold dispatch. cbn [bind log modify exec].
    set (w0 := emit _ w).
    destruct (Hany w0 (sessionId (params req))) as (w' & Hexec).
    exists w'. unfold apiWrapper.
    rewrite exec_bind, exec_try_catch.
    destruct Hroute as [-> | ->];
      cbn [handler GenericSingleSessionWebDriverServer Methods.closeSession];
      rewrite exec_bind, Hexec; reflexivity.
Qed.

Lemma closeSession_never_raises_witness :
  (active example_active /\ example_id = sessionId_ (this example_active)) /\
  exists w',
    exec default_hooks (closeSession example_id) example_active =
      (w', [], Returned tt) /\
    sessionId_ (this w') = "" /\
    timeout_ (this w') = None.
Proof.
  assert (H : active example_active /\
              example_id = sessionId_ (this example_active))
    by (split; [discriminate | reflexivity]).
  split; [exact H|].
  destruct (proj1 (proj2 (proj2 (proj2
              (closeSession_never_raises default_hooks example_active
                 example_id (delete_session example_id)))))
              H)
    as (w' & Hexec & Hid & Hh & _).
  exists w'. repeat apply conj; assumption.
Defined.

(** ** navigateTo and getTitle *)

(** C6 as stated fails for [navigateTo]: on the server of the examples,
    with the navigation hook of the class itself (not overridden, it
    throws), navigating with the active id raises
    [InvalidSessionIdError] although a session is active and the id is
    the active one. *)
Lemma navigateTo_raises_on_matching_id :
  let w := example_active in
  let sid := sessionId_ (this w) in
  ~ (invalid_session
       (snd (exec default_hooks (navigateTo sid (JStr "http://example.com")) w))
     <-> (idle w \/ sid <> sessionId_ (this w))).
Proof.
  intros w sid [Hraise _].
  destruct (Hraise eq_refl) as [Hidle | Hneq].
  - discriminate Hidle.
  - now apply Hneq.
Qed.

Lemma exec_with_active_id (env : Env) (w : World) (sid : string) (u : JsVal)
  (h : Handle) :
  not_the_session (sessionId_ (this w)) sid = false ->
  timeout_ (this w) = Some h ->
  exec env timeout_refresh w = (refreshed h w, [], Returned tt) /\
  exec env (getTitle sid) w =
    (refreshed h w, [], Returned title_of_the_page) /\
  exec env (navigateTo sid u) w =
    (hook_called env (navigateToSingleSession u) (refreshed h w), [],
     match env (HookCall (navigateToSingleSession u)) with
     | Some e => Threw e
     | None => Returned tt
     end).
Proof.
  intros Hcheck Hh.
  unfold navigateTo, getTitle, timeout_refresh.
  cbn [bind exec this_sessionId_ read].
  rewrite Hcheck.
  cbn [bind exec this_timeout_ read].
  rewrite Hh. cbn.
  do 2 (split; [reflexivity|]).
  unfold hook_called, refreshed.
  destruct (env (HookCall (navigateToSingleSession u))); reflexivity.
Qed.

(** C6, amended.  The session check of [navigateTo] and [getTitle]
    raises [InvalidSessionIdError] exactly when the server is idle or the
    id is not the active one, and then nothing else happens.  [getTitle]
    raises it in no other case.  On the active id both rearm the timer;
    [getTitle] then returns the placeholder title without calling the
    backend, and [navigateTo] calls the navigation hook with the url and
    ends as the hook ends: it returns when the hook returns and raises
    what the hook raises. *)
Theorem navigateTo_getTitle_check (env : Env) (w : World) (sid : string)
  (u : JsVal) :
  (invalid_session (snd (exec env (getTitle sid) w)) <->
   (idle w \/ sid <> sessionId_ (this w))) /\
  (idle w \/ sid <> sessionId_ (this w) ->
     exec env (navigateTo sid u) w =
       (w, [], Threw (ExnResponse InvalidSessionIdError)) /\
     exec env (getTitle sid) w =
       (w, [], Threw (ExnResponse InvalidSessionIdError))) /\
  (active w /\ sid = sessionId_ (this w) ->
   forall h, timeout_ (this w) = Some h ->
     exec env (getTitle sid) w =
       (refreshed h w, [], Returned title_of_the_page) /\
     exec env (navigateTo sid u) w =
       (hook_called env (navigateToSingleSession u) (refreshed h w), [],
        match env (HookCall (navigateToSingleSession u)) with
        | Some e => Threw e
        | None => Returned tt
        end)) /\
  (forall h, timeout_ (this w) = Some h ->
     (invalid_session (snd (exec env (navigateTo sid u) w)) <->
      (idle w \/ sid <> sessionId_ (this w)) \/
      env (HookCall (navigateToSingleSession u)) =
        Some (ExnResponse InvalidSessionIdError))).
Proof.
  assert (Hmiss : idle w \/ sid <> sessionId_ (this w) ->
     exec env (navigateTo sid u) w =
       (w, [], Threw (ExnResponse InvalidSessionIdError)) /\
     exec env (getTitle sid) w =
       (w, [], Threw (ExnResponse InvalidSessionIdError))).
  { intro H. apply not_the_session_true in H.
    unfold navigateTo, getTitle. cbn [bind exec this_sessionId_ read].
    rewrite H. split; reflexivity. }
  split; [|split; [exact Hmiss|split]].
  - split; [|intro H; unfold invalid_session;
              now rewrite (proj2 (Hmiss H))].
    intro Hraise.
    destruct (not_the_session (sessionId_ (this w)) sid) eqn:Hcheck;
      [now apply not_the_session_true|].
    exfalso. revert Hraise. unfold invalid_session, getTitle.
    cbn [bind exec this_sessionId_ read]. rewrite Hcheck.
    unfold timeout_refresh. cbn [bind exec this_timeout_ read].
    destruct (timeout_ (this w)); cbn; discriminate.
  - intros [Hactive Hsid] h Hh.
    assert (Hcheck : not_the_session (sessionId_ (this w)) sid = false)
      by now apply not_the_session_false.
    exact (proj2 (exec_with_active_id env w sid u h Hcheck Hh)).
  - intros h Hh. unfold invalid_session.
    destruct (not_the_session (sessionId_ (this w)) sid) eqn:Hcheck.
    + apply not_the_session_true in Hcheck.
      rewrite (proj1 (Hmiss Hcheck)). cbn [snd].
      split; [now left | reflexivity].
    + destruct (exec_with_active_id env w sid u h Hcheck Hh) as (_ & _ & ->).
      cbn [snd]. apply not_the_session_false in Hcheck as [Hne Heq].
      destruct (env (HookCall (navigateToSingleSession u))) as [e|].
      * split; [intros [= ->]; now right|].
        intros [[Hidle|Hneq]|[= ->]];
          [now elim Hne | now elim Hneq | reflexivity].
      * split; [discriminate|].
        intros [[Hidle|Hneq]|H];
          [now elim Hne | now elim Hneq | discriminate H].
Qed.

Lemma navigateTo_getTitle_check_witness :
  (active example_active /\ example_id = sessionId_ (this example_active)) /\
  timeout_ (this example_active) = Some 0 /\
  exec default_hooks (getTitle example_id) example_active =
    (refreshed 0 example_active, [], Returned title_of_the_page).
Proof.
  assert (H : active example_active /\
              example_id = sessionId_ (this example_active))
    by (split; [discriminate | reflexivity]).
  split; [exact H|]. split; [reflexivity|].
  exact (proj1 (proj1 (proj2 (proj2
           (navigateTo_getTitle_check default_hooks example_active example_id
              (JStr "http://example.com")))) H 0 eq_refl)).
Defined.

(** C7.  A [POST /session/:sessionId/url] whose body has no [url] field
    is answered 400 with [{value: {error: "invalid argument"}}].  The
    callback of the route leaves the world as it is: the navigation hook
    is not called, no timer is rearmed, and the session id of the request
    is not looked at (the answer is the same for every id).  Through the
    whole chain, the request log line is all that happens. *)
Theorem navigate_without_url (env : Env) (w : World) (req : Request) :
  route req = POST_session_url ->
  lacks_url (body req) = true ->
  let answer :=
    mkWire 400 (JObj [("value", JObj [("error", JStr "invalid argument")])]) in
  exec env (handler GenericSingleSessionWebDriverServer POST_session_url
              (params req) (body req)) w =
    (w, [], Returned InvalidArgumentError) /\
  exec env (apiWrapper (handler GenericSingleSessionWebDriverServer
                          POST_session_url) req) w =
    (w, [], Returned answer) /\
  exec env (dispatch GenericSingleSessionWebDriverServer req) w =
    (emit (Logged LogInfo [LStr (method req); LStr (url req); LVal (body req)])
       w, [], Returned answer).
Proof.
  intros Hroute Hbody answer.
  assert (Hhandler : forall w0,
    exec env (handler GenericSingleSessionWebDriverServer POST_session_url
                (params req) (body req)) w0 =
    (w0, [], Returned InvalidArgumentError)).
  { intro w0. cbn [handler]. rewrite (lacks_url_undefined _ Hbody).
    reflexivity. }
  assert (Hwrap : forall w0,
    exec env (apiWrapper (handler GenericSingleSessionWebDriverServer
                            POST_session_url) req) w0 =
    (w0, [], Returned answer)).
  { intro w0. unfold apiWrapper.
    rewrite exec_bind, exec_try_catch, Hhandler. reflexivity. }
  split; [apply Hhandler|]. split; [apply Hwrap|].
  unfold dispatch. cbn [bind log modify exec].
  rewrite Hroute. apply Hwrap.
Qed.

Lemma navigate_without_url_witness :
  let req := post_url_without_url example_id in
  exec default_hooks
    (apiWrapper (handler GenericSingleSessionWebDriverServer POST_session_url)
       req) example_active =
  (example_active, [],
   Returned (mkWire 400
               (JObj [("value", JObj [("error", JStr "invalid argument")])]))).
Proof.
  exact (proj1 (proj2
           (navigate_without_url default_hooks example_active
              (post_url_without_url example_id)
              eq_refl eq_refl))).
Defined.

(** ** The state after each operation *)

Lemma not_the_session_self (s : string) :
  str_truthy s = true -> not_the_session s s = false.
Proof.
  intro H. unfold not_the_session. now rewrite H, String.eqb_refl.
Qed.

(** Case analysis on how the platform settles the awaited calls and on
    the timer handle, computing in between. *)
Ltac settle_env env :=
  repeat (cbn;
          match goal with
          | |- context [env ?c] => destruct (env c) eqn:?
          | |- context [match timeout_ (this ?w) with _ => _ end] =>
              destruct (timeout_ (this w)) eqn:?
          end);
  cbn.

Lemma state_createSession (env : Env) (w : World) :
  state (run_op env op_createSession w) =
  if str_truthy (sessionId_ (this w)) then state w
  else match env (randomBytes NUM_RANDOM_ID_BYTES) with
       | Some _ => state w
       | None =>
           create_state (this w) (timers w)
             (toString_hex (fst (draw NUM_RANDOM_ID_BYTES w)))
       end.
Proof.
  unfold run_op, complete, program, discard, createSession, create_state.
  cbn [bind exec this_sessionId_ read].
  destruct (str_truthy _); [reflexivity|].
  cbn [bind exec await_randomBytes settle].
  destruct (env (randomBytes NUM_RANDOM_ID_BYTES)); [reflexivity|].
  cbn -[toString_hex Z.mul seq]. reflexivity.
Qed.

Lemma state_navigateTo (env : Env) (w : World) (sid : string) (u : JsVal) :
  state (run_op env (op_navigateTo sid u) w) =
  if not_the_session (sessionId_ (this w)) sid then state w
  else refresh_state (this w) (timers w).
Proof.
  unfold run_op, complete, program, navigateTo, timeout_refresh,
    refresh_state.
  cbn [bind exec this_sessionId_ read].
  destruct (not_the_session _ _); [reflexivity|].
  settle_env env; reflexivity.
Qed.

Lemma state_getTitle (env : Env) (w : World) (sid : string) :
  state (run_op env (op_getTitle sid) w) =
  if not_the_session (sessionId_ (this w)) sid then state w
  else refresh_state (this w) (timers w).
Proof.
  unfold run_op, complete, program, discard, getTitle, timeout_refresh,
    refresh_state.
  cbn [bind exec this_sessionId_ read].
  destruct (not_the_session _ _); [reflexivity|].
  settle_env env; reflexivity.
Qed.

Lemma state_closeSession (env : Env) (w : World) (sid : string) :
  state (run_op env (op_closeSession sid) w) =
  if not_the_session (sessionId_ (this w)) sid then state w
  else close_state (this w) (timers w).
Proof.
  unfold run_op, complete, program, closeSession, close_state.
  cbn [bind exec this_sessionId_ read].
  destruct (not_the_session _ _); settle_env env; reflexivity.
Qed.

Lemma state_shutdown (env : Env) (w : World) :
  state (run_op env op_shutdown w) =
  if str_truthy (sessionId_ (this w)) then close_state (this w) (timers w)
  else state w.
Proof.
  unfold run_op, complete, program, shutdown, close_state.
  cbn [bind exec this_sessionId_ read].
  destruct (str_truthy (sessionId_ (this w))) eqn:E.
  - cbn [bind exec]. unfold closeSession.
    cbn [bind run_sync this_sessionId_ read].
    rewrite (not_the_session_self _ E).
    settle_env env; reflexivity.
  - settle_env env; reflexivity.
Qed.

Lemma state_timer_fires (env : Env) (w : World) (h : Handle) :
  state (run_op env (op_timer_fires h) w) =
  match option_map status (nth_error (timers w) h) with
  | Some Pending =>
      let ts := update_timer h (set_status Fired) (timers w) in
      if str_truthy (sessionId_ (this w)) then close_state (this w) ts
      else (this w, ts)
  | _ => state w
  end.
Proof.
  unfold run_op, complete, program, fire, close_state.
  cbn [bind exec].
  destruct (nth_error (timers w) h) as [t|]; [|reflexivity].
  cbn [option_map]. destruct (status t); try reflexivity.
  destruct t as [cb d a st]; destruct cb.
  cbn [callback run_callback bind exec log modify this_sessionId_ read].
  unfold closeSession. cbn [bind run_sync this_sessionId_ read].
  cbn [this with_timers emit sessionId_].
  destruct (str_truthy (sessionId_ (this w))) eqn:E.
  - rewrite (not_the_session_self _ E). settle_env env; reflexivity.
  - unfold not_the_session. rewrite E. settle_env env; reflexivity.
Qed.

(** *** Serial runs are runs of the event loop *)

Lemma not_the_session_idle (s sid : string) :
  str_truthy s = false -> not_the_session s sid = true.
Proof. intro H. unfold not_the_session. now rewrite H. Qed.

(** Computes the turns of the event loop on a method, splitting on every
    test the code makes and on how the platform settles. *)
Ltac turn env :=
  repeat (unfold start;
          cbn -[not_the_session str_truthy toString_hex Z.mul seq];
          match goal with
          | H : false = true |- _ => discriminate H
          | H : true = false |- _ => discriminate H
          | H : Some _ = None |- _ => discriminate H
          | H : None = Some _ |- _ => discriminate H
          | H : Some ?a = Some ?b |- _ =>
              first [constr_eq a b; clear H | injection H; intro; subst]
          | H : str_truthy ?s = true |- context [not_the_session ?s ?s] =>
              rewrite (not_the_session_self s H)
          | H : str_truthy ?s = false |- context [not_the_session ?s ?x] =>
              rewrite (not_the_session_idle s x H)
          | |- context [if ?b then _ else _] =>
              lazymatch b with
              | true => fail
              | false => fail
              | _ => destruct b eqn:?
              end
          | |- context [env ?c] => destruct (env c) eqn:?
          | |- context [match timeout_ (this ?w) with _ => _ end] =>
              destruct (timeout_ (this w)) eqn:?
          | |- context [match nth_error ?l ?h with _ => _ end] =>
              destruct (nth_error l h) as [[[] ? ? []]|] eqn:?
          end);
  unfold start;
  cbn -[not_the_session str_truthy toString_hex Z.mul seq].




(** *** The pool of suspended calls *)

Lemma Forall_remove_nth {A : Type} (P : A -> Prop) (i : nat) (l : list A) :
  Forall P l -> Forall P (remove_nth i l).
Proof.
  revert i. induction l as [|x l IH]; intros i H; [destruct i; constructor|].
  inversion H; subst. destruct i; cbn; [assumption|].
  constructor; [assumption | now apply IH].
Qed.

Lemma filter_remove_nth {A : Type} (f : A -> bool) (i : nat) (l : list A)
  (t : A) :
  nth_error l i = Some t ->
  length (filter f l) =
  (if f t then 1 else 0) + length (filter f (remove_nth i l)).
Proof.
  revert i. induction l as [|x l IH]; intros i Hnth.
  - destruct i; discriminate.
  - destruct i as [|i]; cbn in *.
    + injection Hnth as ->. destruct (f t); reflexivity.
    + specialize (IH i Hnth). destruct (f x), (f t); cbn in *; lia.
Qed.



(** *** The timer table *)

Lemma nth_error_update_timer (h h' : Handle) (f : Timer -> Timer)
  (l : list Timer) :
  nth_error (update_timer h f l) h' =
  if Nat.eqb h h' then option_map f (nth_error l h') else nth_error l h'.
Proof.
  revert h h'. induction l as [|t l IH]; intros h h'.
  - destruct h, h'; reflexivity || (cbn; now destruct (Nat.eqb _ _)).
  - destruct h, h'; cbn; try reflexivity. apply IH.
Qed.

Lemma cancel_not_pending (t : Timer) : status (cancel t) <> Pending.
Proof.
  unfold cancel. destruct (status t) eqn:E; cbn; rewrite ?E; discriminate.
Qed.

Lemma rearm_pending (t : Timer) :
  status t = Pending -> status (rearm t) = Pending /\
                        armed_for (rearm t) = armed_for t.
Proof. intro E. unfold rearm. rewrite E. split; reflexivity. Qed.

Lemma draw_nonempty (w : World) :
  toString_hex (fst (draw NUM_RANDOM_ID_BYTES w)) <> "".
Proof. discriminate. Qed.

(** *** The invariants are kept *)

Lemma consistent_close (s : Server) (ts : list Timer) :
  (forall h t, timeout_ s <> Some h -> nth_error ts h = Some t ->
               status t <> Pending) ->
  consistent_state (fst (close_state s ts)) (snd (close_state s ts)).
Proof.
  intro Hothers. unfold consistent_state, close_state. cbn.
  split; [reflexivity|]. intros h t.
  destruct (timeout_ s) as [h0|] eqn:E.
  - rewrite nth_error_update_timer.
    destruct (Nat.eqb_spec h0 h) as [->|Hneq].
    + destruct (nth_error ts h); cbn; [|discriminate].
      intros [= <-]. apply cancel_not_pending.
    + apply Hothers. congruence.
  - apply Hothers. discriminate.
Qed.

Lemma consistent_of_state (w w' : World) :
  state w' = state w -> consistent w -> consistent w'.
Proof.
  unfold state, consistent. now intros [= -> ->].
Qed.

Lemma consistent_fields (w W : World) :
  consistent w ->
  sessionId_ (this W) = sessionId_ (this w) ->
  timeout_ (this W) = timeout_ (this w) ->
  timers W = timers w ->
  consistent W.
Proof.
  unfold consistent, consistent_state. intros Hc -> -> ->. exact Hc.
Qed.

Lemma consistent_closed (w W : World) :
  consistent w ->
  state W = close_state (this w) (timers w) ->
  consistent W.
Proof.
  unfold consistent. intros Hc HW.
  change (this W) with (fst (state W)). change (timers W) with (snd (state W)).
  rewrite HW. apply consistent_close. intros h t Hh.
  unfold consistent_state in Hc.
  destruct (timeout_ (this w)) as [h0|].
  - apply Hc. congruence.
  - apply Hc.
Qed.

Lemma consistent_refreshed (w W : World) :
  consistent w ->
  state W = refresh_state (this w) (timers w) ->
  consistent W.
Proof.
  unfold consistent. intros Hc HW.
  change (this W) with (fst (state W)). change (timers W) with (snd (state W)).
  rewrite HW. unfold consistent_state, refresh_state in *. cbn.
  destruct (timeout_ (this w)) as [h0|]; [|exact Hc].
  destruct Hc as (Hid & (t & Ht & Hp & Ha) & Hothers).
  split; [exact Hid|]. split.
  - exists (rearm t). rewrite nth_error_update_timer, Nat.eqb_refl, Ht.
    destruct (rearm_pending t Hp) as [H1 H2].
    repeat split; [exact H1 | congruence].
  - intros h' t' Hneq. rewrite nth_error_update_timer.
    destruct (Nat.eqb_spec h0 h'); [congruence|]. now apply Hothers.
Qed.

Lemma consistent_created (w W : World) (id : string) :
  consistent w -> idle w -> id <> "" ->
  state W = create_state (this w) (timers w) id ->
  consistent W.
Proof.
  unfold consistent, idle. intros Hc Hidle Hid HW.
  change (this W) with (fst (state W)). change (timers W) with (snd (state W)).
  rewrite HW. unfold consistent_state in *. cbn.
  destruct (timeout_ (this w)) as [h0|]; [now destruct Hc|].
  destruct Hc as [_ Hnone].
  split; [exact Hid|]. split.
  - eexists. rewrite nth_error_app2, Nat.sub_diag by lia.
    cbn. repeat split; reflexivity.
  - intros h' t Hneq Hnth.
    destruct (Nat.lt_ge_cases h' (length (timers w))) as [Hlt|Hge].
    + rewrite nth_error_app1 in Hnth by exact Hlt. now apply (Hnone h').
    + rewrite nth_error_app2 in Hnth by exact Hge.
      destruct (h' - length (timers w)) as [|k] eqn:Ek; [lia|].
      destruct k; discriminate.
Qed.

(** A pending timer of a consistent world is the timer of its session. *)
Lemma consistent_pending (w : World) (h : Handle) (t : Timer) :
  consistent w -> nth_error (timers w) h = Some t -> status t = Pending ->
  timeout_ (this w) = Some h /\ str_truthy (sessionId_ (this w)) = true.
Proof.
  unfold consistent, consistent_state. intros Hc Ht Hp.
  destruct (timeout_ (this w)) as [h0|].
  - destruct Hc as (Hid & _ & Hothers).
    split; [|now apply str_truthy_true].
    destruct (Nat.eq_dec h h0) as [->|Hneq]; [reflexivity|].
    now elim (Hothers h t Hneq Ht).
  - destruct Hc as [_ Hnone]. now elim (Hnone h t Ht).
Qed.

Lemma consistent_fired (w W : World) (h : Handle) (t : Timer) :
  consistent w -> nth_error (timers w) h = Some t -> status t = Pending ->
  state W =
    close_state (this w) (update_timer h (set_status Fired) (timers w)) ->
  consistent W.
Proof.
  intros Hc Ht Hp HW.
  destruct (consistent_pending w h t Hc Ht Hp) as [Hh _].
  unfold consistent in *.
  change (this W) with (fst (state W)). change (timers W) with (snd (state W)).
  rewrite HW. apply consistent_close. intros h' t' Hneq.
  rewrite nth_error_update_timer.
  destruct (Nat.eqb_spec h h') as [<-|Hneq']; [congruence|].
  unfold consistent_state in Hc. rewrite Hh in Hc.
  apply Hc. congruence.
Qed.

Lemma consistent_run_op (env : Env) (op : Operation) (w : World) :
  consistent w -> consistent (run_op env op w).
Proof.
  intro Hc. destruct op as [|sid u|sid|sid| |h].
  - pose proof (state_createSession env w) as HS.
    destruct (str_truthy (sessionId_ (this w))) eqn:E;
      [exact (consistent_of_state _ _ HS Hc)|].
    destruct (env _); [exact (consistent_of_state _ _ HS Hc)|].
    eapply (consistent_created w);
      [exact Hc | now apply str_truthy_false | | exact HS].
    apply draw_nonempty.
  - pose proof (state_navigateTo env w sid u) as HS.
    destruct (not_the_session _ _);
      [exact (consistent_of_state _ _ HS Hc)|].
    exact (consistent_refreshed w _ Hc HS).
  - pose proof (state_getTitle env w sid) as HS.
    destruct (not_the_session _ _);
      [exact (consistent_of_state _ _ HS Hc)|].
    exact (consistent_refreshed w _ Hc HS).
  - pose proof (state_closeSession env w sid) as HS.
    destruct (not_the_session _ _);
      [exact (consistent_of_state _ _ HS Hc)|].
    exact (consistent_closed w _ Hc HS).
  - pose proof (state_shutdown env w) as HS.
    destruct (str_truthy _);
      [|exact (consistent_of_state _ _ HS Hc)].
    exact (consistent_closed w _ Hc HS).
  - pose proof (state_timer_fires env w h) as HS.
    destruct (nth_error (timers w) h) as [t|] eqn:Ht;
      [|exact (consistent_of_state _ _ HS Hc)].
    cbn [option_map] in HS.
    destruct (status t) eqn:Hst;
      try exact (consistent_of_state _ _ HS Hc).
    cbn zeta in HS.
    destruct (consistent_pending w h t Hc Ht Hst) as [_ Htruthy].
    rewrite Htruthy in HS.
    exact (consistent_fired w _ h t Hc Ht Hst HS).
Qed.

Lemma consistent_initial (fl : Flags) (rnd : nat -> byte) :
  consistent (initial fl rnd).
Proof.
  split; [reflexivity|]. intros [|h] t; discriminate.
Qed.

Lemma consistent_run_ops (ops : list (Operation * Env)) (w : World) :
  consistent w -> consistent (run_ops ops w).
Proof.
  revert w. induction ops as [|[op env] ops IH]; intros w Hc; [exact Hc|].
  apply IH. now apply consistent_run_op.
Qed.



(** *** Schedules in which calls of [createSession] do not overlap *)

Lemma keeps_id_refl (w : World) : keeps_id w w.
Proof. now right. Qed.

Lemma keeps_id_trans (w1 w2 w3 : World) :
  keeps_id w1 w2 -> keeps_id w2 w3 -> keeps_id w1 w3.
Proof.
  unfold keeps_id, idle. intros [H|H] [H'|H']; auto; rewrite H'; auto.
Qed.

Lemma keeps_id_idle (w w' : World) : keeps_id w w' -> idle w -> idle w'.
Proof. unfold keeps_id, idle. intros [H|H] Hw; congruence. Qed.

Lemma idle_note_rejection {A : Type} (r : Async A) (w : World) :
  sessionId_ (this (note_rejection r w)) = sessionId_ (this w).
Proof. destruct r; reflexivity. Qed.

Lemma orderly_run_sync {A : Type} (committing : bool) (m : Async A)
  (post : World -> Prop) (w : World) :
  orderly committing m post w ->
  let '(w1, sp, r) := run_sync m w in
  post (note_rejection r w1) /\
  Forall orderly_on_resume sp /\
  resumes_in_order r /\
  (committing = false ->
   keeps_id w w1 /\
   (filter draws_bytes sp <> [] \/ draws_bytes r = true -> idle w1)) /\
  (committing = true -> filter draws_bytes sp = [] /\ draws_bytes r = false).
Proof.
  revert post w.
  induction m using Async_ind; intros post w Hk; cbn [run_sync orderly] in *.
  - split; [exact Hk|]. split; [constructor|]. split; [intro X; now elim X|].
    split.
    + intros _. split; [apply keeps_id_refl|].
      intros [X|X]; [now elim X | discriminate X].
    + intros _. split; reflexivity.
  - split; [exact Hk|]. split; [constructor|]. split; [intro X; now elim X|].
    split.
    + intros _. split; [apply keeps_id_refl|].
      intros [X|X]; [now elim X | discriminate X].
    + intros _. split; reflexivity.
  - now apply H.
  - destruct Hk as [Hid Hk]. specialize (IHm _ _ Hk).
    destruct (run_sync m (f w)) as [[w1 sp] r].
    destruct IHm as (Hpost & Hsp & Hr & Hfalse & Htrue).
    split; [exact Hpost|]. split; [exact Hsp|]. split; [exact Hr|].
    split; [|exact Htrue].
    intro Hc. destruct (Hfalse Hc) as [H1 H2]. split; [|exact H2].
    eapply keeps_id_trans; [now apply Hid | exact H1].
  - destruct Hk as (Hmode & Hidle & Hpost & Hk).
    split; [exact Hpost|]. split; [constructor|]. split; [|split].
    + intros _ err w' Hw' Hi. cbn [draws_bytes] in *.
      destruct (Hk w' Hw' (Hi eq_refl)) as [Hrej Hres].
      cbn [resume]. destruct err as [e|]; cbn; [apply Hrej|].
      exact Hres.
    + intros _. split; [now right|]. intros _. exact Hidle.
    + congruence.
  - destruct Hk as [Hpost Hk].
    split; [exact Hpost|]. split; [constructor|]. split; [|split].
    + intros _ err w' Hw' _. cbn [resume fst snd draws_bytes]. now apply Hk.
    + intros _. split; [now right|].
      intros [X|X]; [now elim X | discriminate X].
    + intros _. split; reflexivity.
  - specialize (IHm1 _ _ Hk).
    destruct (run_sync m1 w) as [[w1 sp1] c].
    destruct IHm1 as (Hk2 & Hsp1 & Hc & Hfalse1 & Htrue1).
    specialize (IHm2 _ _ Hk2).
    destruct (run_sync m2 (note_rejection c w1)) as [[w2 sp2] r].
    destruct IHm2 as (Hpost & Hsp2 & Hr & Hfalse2 & Htrue2).
    assert (Hdet : Forall orderly_on_resume (detached c)).
    { destruct c; cbn [detached]; constructor; try constructor;
        intros err w' Hw' Hi; apply Hc; try assumption; discriminate. }
    assert (Hdraw : filter draws_bytes (detached c) <> [] ->
                    draws_bytes c = true).
    { destruct c; cbn; congruence. }
    assert (Hnote : keeps_id w1 (note_rejection c w1)).
    { right. apply idle_note_rejection. }
    split; [exact Hpost|]. split; [|split; [exact Hr|split]].
    + apply Forall_app; split; [exact Hsp1|].
      apply Forall_app; split; [exact Hdet | exact Hsp2].
    + intro Hm. destruct (Hfalse1 Hm) as [H1 H1'].
      destruct (Hfalse2 Hm) as [H2 H2']. split.
      * eapply keeps_id_trans; [exact H1|].
        eapply keeps_id_trans; [exact Hnote | exact H2].
      * rewrite !filter_app. intros [Hne|Hrr]; [|now apply H2'; right].
        revert Hne.
        destruct (filter draws_bytes sp1) eqn:E1; intro Hne.
        -- destruct (draws_bytes c) eqn:Ec.
           ++ eapply keeps_id_idle; [exact H2|].
              eapply keeps_id_idle; [exact Hnote|].
              apply H1'. now right.
           ++ apply H2'. left. intro E2. apply Hne.
              rewrite E2, app_nil_r.
              destruct c; cbn in *; congruence.
        -- eapply keeps_id_idle; [exact H2|].
           eapply keeps_id_idle; [exact Hnote|].
           apply H1'. left. discriminate.
    + intro Hm. destruct (Htrue1 Hm) as [H1 H1'].
      destruct (Htrue2 Hm) as [H2 H2'].
      split; [|exact H2'].
      rewrite !filter_app, H1, H2.
      destruct c; cbn in *; congruence.
Qed.

Lemma start_in_order (committing : bool) (m : Async unit) (w : World)
  (p : list (Async unit)) :
  Forall orderly_on_resume p ->
  orderly committing m consistent w ->
  (committing = false -> length (filter draws_bytes p) <> 0 -> idle w) ->
  (committing = true -> length (filter draws_bytes p) = 0) ->
  in_order (start m (mkConfig w p)).
Proof.
  intros Hpool Hk Hfalse Htrue. unfold start. cbn [world pool].
  pose proof (orderly_run_sync committing m consistent w Hk) as H.
  destruct (run_sync m w) as [[w1 sp] r].
  destruct H as (Hpost & Hsp & Hr & Hf & Ht).
  assert (Hdet : Forall orderly_on_resume (detached r)).
  { destruct r; cbn [detached]; constructor; try constructor;
      intros err w' Hw' Hi; apply Hr; try assumption; discriminate. }
  split; [exact Hpost|]. split.
  - unfold creating, idle. cbn [world pool].
    rewrite idle_note_rejection, !filter_app, !length_app.
    intro Hn. destruct committing.
    + destruct (Ht eq_refl) as [H1 H2]. rewrite (Htrue eq_refl), H1 in Hn.
      destruct r; cbn in *; congruence.
    + destruct (Hf eq_refl) as [H1 H2].
      destruct (filter draws_bytes p) eqn:Ep.
      * apply H2. destruct (filter draws_bytes sp) eqn:Es.
        -- right. destruct r; cbn in *; congruence.
        -- left. discriminate.
      * eapply keeps_id_idle; [exact H1|]. apply Hfalse; [reflexivity|].
        discriminate.
  - cbn [pool]. apply Forall_app; split; [exact Hpool|].
    apply Forall_app; split; [exact Hsp | exact Hdet].
Qed.

Section InOrder.
Hypothesis serve_orderly :
  forall req w, consistent w -> orderly false (serve req) consistent w.
Hypothesis program_orderly :
  forall op w,
    consistent w -> orderly false (attempt (program op)) consistent w.

Lemma step_in_order (e : Event) (c : Config) :
  in_order c -> creating c <= 1 -> in_order (step e c).
Proof.
  intros (Hw & Hidle & Hpool) Hone. destruct c as [w p].
  unfold creating in *. cbn [world pool] in *.
  destruct e as [req|op|i err]; cbn [step world pool].
  - apply (start_in_order false); try assumption.
    + now apply serve_orderly.
    + intros _. exact Hidle.
    + discriminate.
  - apply (start_in_order false); try assumption.
    + now apply program_orderly.
    + intros _. exact Hidle.
    + discriminate.
  - destruct (nth_error p i) as [t|] eqn:Ht; [|now repeat split].
    assert (Hgood : orderly_on_resume t).
    { rewrite Forall_forall in Hpool. eapply Hpool, nth_error_In, Ht. }
    pose proof (filter_remove_nth draws_bytes i p t Ht) as Hcount.
    assert (Hsame : sessionId_ (this (fst (resume t err w))) =
                    sessionId_ (this w)).
    { destruct t; cbn [resume fst]; try reflexivity.
      destruct err; [reflexivity|]. cbn. reflexivity. }
    specialize (Hgood err w Hw).
    destruct (resume t err w) as [w1 m]. cbn [fst snd] in *.
    apply (start_in_order (draws_bytes t)).
    + now apply Forall_remove_nth.
    + apply Hgood. intro Hd. apply Hidle. rewrite Hcount, Hd. discriminate.
    + intros Hd Hn. unfold idle. rewrite Hsame. apply Hidle.
      rewrite Hcount. lia.
    + intros Hd. rewrite Hd in Hcount. lia.
Qed.

Lemma run_in_order (events : list Event) (c : Config) :
  in_order c ->
  (forall n, creating (run (firstn n events) c) <= 1) ->
  in_order (run events c).
Proof.
  revert c. induction events as [|e events IH]; intros c Hc Hone; [exact Hc|].
  cbn [run fold_left]. apply IH.
  - apply step_in_order; [exact Hc | exact (Hone 0)].
  - intro n. exact (Hone (S n)).
Qed.
End InOrder.

(** Computes [orderly] over a method or a route, splitting on every test
    the code makes. *)
Ltac split_orderly :=
  repeat match goal with
         | |- _ /\ _ => split
         | |- forall _, _ => intro
         | H : false = true |- _ => discriminate H
         | H : true = false |- _ => discriminate H
         | |- false = false => reflexivity
         | |- context [if ?b then _ else _] =>
             lazymatch b with
             | true => fail
             | false => fail
             | _ => destruct b eqn:?
             end
         | |- context [match timeout_ (this ?w) with _ => _ end] =>
             destruct (timeout_ (this w)) eqn:?
         | |- context [match server (this ?w) with _ => _ end] =>
             destruct (server (this w)) eqn:?
         | |- context [match nth_error ?l ?h with _ => _ end] =>
             destruct (nth_error l h) as [[[] ? ? []]|] eqn:?
         | |- context [match ?e with Some _ => _ | None => _ end] =>
             destruct e eqn:?
         | |- context [match ?e with ExnResponse _ => _ | _ => _ end] =>
             destruct e eqn:?
         | _ =>
             progress cbn -[not_the_session toString_hex truthy get_property
                            keeps_id idle consistent str_truthy draw]
         end.

(** Closes what [split_orderly] leaves: the session id is kept, the
    server is idle, or the world is consistent because the lifecycle
    state is unchanged, closed, refreshed or created. *)
Ltac close_orderly :=
  match goal with
  | |- keeps_id _ _ => first [right; reflexivity | left; reflexivity]
  | H : str_truthy (sessionId_ (this _)) = false |- idle _ =>
      apply str_truthy_false; exact H
  | H : consistent ?w0 |- consistent ?W =>
      first
        [ solve [apply (consistent_fields w0 W H); reflexivity]
        | solve [apply (consistent_closed w0 W H);
                 unfold state, close_state; cbn;
                 repeat match goal with
                        | E : timeout_ _ = _ |- _ => rewrite E
                        end; reflexivity]
        | solve [apply (consistent_refreshed w0 W H);
                 unfold state, refresh_state; cbn;
                 repeat match goal with
                        | E : timeout_ _ = _ |- _ => rewrite E
                        end; reflexivity]
        | solve [apply (consistent_created w0 W (sessionId_ (this W)) H);
                 [assumption | discriminate | reflexivity]]
        | match goal with
          | E : nth_error (timers w0) ?h = Some ?t |- _ =>
              first
                [ solve [exfalso;
                         destruct (consistent_pending w0 h t H E eq_refl)
                           as [_ X];
                         match goal with
                         | F : not_the_session _ _ = true |- _ =>
                             rewrite (not_the_session_self _ X) in F;
                             discriminate F
                         end]
                | solve [apply (consistent_fired w0 W h t H E eq_refl);
                         unfold state, close_state; cbn;
                         repeat match goal with
                                | E' : timeout_ _ = _ |- _ => rewrite E'
                                end; reflexivity] ]
          end ]
  end.

Lemma program_orderly (op : Operation) (w : World) :
  consistent w -> orderly false (attempt (program op)) consistent w.
Proof.
  intro Hw.
  destruct op; unfold attempt, program, discard, createSession, navigateTo,
    getTitle, closeSession, shutdown, fire, timeout_refresh; split_orderly.
  all: try close_orderly.
Qed.

Lemma serve_orderly (req : Request) (w : World) :
  consistent w -> orderly false (serve req) consistent w.
Proof.
  intro Hw. destruct req as [m u r p b].
  destruct r; unfold serve, dispatch, apiWrapper, handler;
    cbn [route params body GenericSingleSessionWebDriverServer
         Methods.ready Methods.shutdown Methods.createSession
         Methods.navigateTo Methods.screenshot Methods.getTitle
         Methods.closeSession];
    unfold ready, createSession, navigateTo, getTitle, closeSession,
      shutdown, GenericWebDriverServer.screenshot, server_close,
      timeout_refresh;
    split_orderly.
  all: try close_orderly.
Qed.

Lemma in_order_boot (fl : Flags) (rnd : nat -> byte) : in_order (boot fl rnd).
Proof.
  split; [apply consistent_initial|]. split; [|constructor].
  intros _. reflexivity.
Qed.

(** In every schedule in which no two calls of [createSession] wait for
    their bytes at once, the world stays consistent. *)
Lemma consistent_unless_creates_overlap (fl : Flags) (rnd : nat -> byte)
  (events : list Event) :
  (forall n, creating (run (firstn n events) (boot fl rnd)) <= 1) ->
  consistent (world (run events (boot fl rnd))).
Proof.
  intro Hone.
  apply (run_in_order serve_orderly program_orderly);
    [apply in_order_boot | exact Hone].
Qed.

(** ** One session at a time *)



(** ** shutdown *)

Lemma exec_shutdown (env : Env) (w : World) :
  exists w1,
    exec env shutdown w =
      (w1, dropped_close w,
       match env (HookCall shutdownSingleSession) with
       | Some e => Threw e
       | None => Returned tt
       end) /\
    sessionId_ (this w1) = "" /\
    server (this w1) = server (this w) /\
    (str_truthy (sessionId_ (this w)) = true ->
     state w1 = close_state (this w) (timers w)) /\
    trace w1 = (trace w ++ close_effects w ++ shutdown_hook_effects env)%list.
Proof.
  unfold shutdown, dropped_close, close_effects, shutdown_hook_effects.
  cbn [bind exec this_sessionId_ read].
  destruct (str_truthy (sessionId_ (this w))) eqn:E.
  - cbn [bind exec]. unfold closeSession.
    cbn [bind run_sync this_sessionId_ read].
    rewrite (not_the_session_self _ E).
    cbn.
    destruct (env (HookCall shutdownSingleSession));
      destruct (timeout_ (this w)) eqn:Ht; cbn;
      (eexists; split; [reflexivity|]); cbn; unfold close_state;
      rewrite ?Ht, <- ?app_assoc; repeat apply conj; reflexivity.
  - cbn. apply str_truthy_false in E.
    destruct (env (HookCall shutdownSingleSession)); cbn;
      (eexists; split; [reflexivity|]); cbn; rewrite <- ?app_assoc;
      repeat apply conj; try reflexivity; try assumption; discriminate.
Qed.

(** C8 as stated fails when the shutdown hook of the backend raises: on
    the listening, active server of the examples the route answers
    [UnknownError] and the listener is still listening.  (It also fails on
    a server on which [listen()] was never called: [this.server] is
    [null] and the route answers [UnknownError].) *)
Lemma shutdown_hook_failure_keeps_listening :
  let result :=
    exec failing_shutdown
      (dispatch GenericSingleSessionWebDriverServer get_shutdown)
      example_active in
  let unbound :=
    exec default_hooks
      (dispatch GenericSingleSessionWebDriverServer get_shutdown)
      example_world in
  ~ (snd result = Returned (wire_of (Success (JObj []))) /\
     server (this (fst (fst result))) = Some Closed) /\
  snd result = Returned (wire_of UnknownError) /\
  server (this (fst (fst result))) = Some Listening /\
  snd unbound = Returned (wire_of UnknownError).
Proof.
  cbv zeta. split; [|repeat split].
  intros [H _]. discriminate H.
Qed.

(** C8, amended.  [shutdown()] first runs the synchronous part of
    [closeSession] when a session is active (the id is cleared, the timer
    cancelled, the close hook called, its outcome not awaited), then calls
    the shutdown hook and ends as the hook ends; so the close hook is
    called before the shutdown hook is called, hence before it completes.
    On a server whose listener was created, when the shutdown hook
    returns, [GET /shutdown] then stops the listener and answers
    [Success({})].  When the shutdown hook raises, the listener is not
    stopped and the answer is the raised response, or [UnknownError]. *)
Theorem shutdown_closes_then_stops (env : Env) (w : World) (req : Request) :
  route req = GET_shutdown ->
  let outcome := env (HookCall shutdownSingleSession) in
  (exists w1,
     exec env shutdown w =
       (w1, dropped_close w,
        match outcome with Some e => Threw e | None => Returned tt end) /\
     sessionId_ (this w1) = "" /\
     (active w -> state w1 = close_state (this w) (timers w)) /\
     trace w1 =
       (trace w ++ close_effects w ++ shutdown_hook_effects env)%list) /\
  (outcome = None -> server (this w) <> None ->
   exists w',
     exec env (dispatch GenericSingleSessionWebDriverServer req) w =
       (w', dropped_close w,
        Returned (mkWire 200 (JObj [("value", JObj [])]))) /\
     server (this w') = Some Closed /\
     sessionId_ (this w') = "" /\
     trace w' =
       (trace w ++ [request_log req] ++ close_effects w ++
        shutdown_hook_effects env ++ [ServerClose])%list) /\
  (forall e, outcome = Some e ->
   exists w',
     exec env (dispatch GenericSingleSessionWebDriverServer req) w =
       (w', dropped_close w, Returned (wire_of (response_of (Threw e)))) /\
     server (this w') = server (this w) /\
     sessionId_ (this w') = "" /\
     trace w' =
       (trace w ++ [request_log req] ++ close_effects w ++
        shutdown_hook_effects env ++ caught_log e)%list).
Proof.
  intros Hroute outcome. split; [|split].
  - destruct (exec_shutdown env w) as (w1 & Hexec & Hid & _ & Hstate & Htrace).
    exists w1. repeat apply conj; try assumption.
    intro Hactive. now apply Hstate, str_truthy_true.
  - intros Hout Hserver.
    unfold dispatch. rewrite Hroute. cbn [bind log modify exec].
    set (w0 := emit _ w).
    destruct (exec_shutdown env w0)
      as (w1 & Hexec & Hid & Hsrv & _ & Htrace).
    fold outcome in Hexec. rewrite Hout in Hexec.
    change (dropped_close w0) with (dropped_close w) in Hexec.
    change (close_effects w0) with (close_effects w) in Htrace.
    change (server (this w0)) with (server (this w)) in Hsrv.
    unfold apiWrapper. rewrite exec_bind, exec_try_catch.
    cbn [handler GenericSingleSessionWebDriverServer Methods.shutdown].
    rewrite exec_bind, Hexec.
    unfold server_close. cbn [bind exec read].
    rewrite Hsrv.
    destruct (server (this w)) as [l|]; [|now elim Hserver].
    cbn. rewrite !app_nil_r. eexists. split; [reflexivity|].
    cbn. rewrite Htrace, Hid. subst w0. cbn [emit trace].
    rewrite <- !app_assoc. repeat apply conj; reflexivity.
  - intros e Hout.
    unfold dispatch. rewrite Hroute. cbn [bind log modify exec].
    set (w0 := emit _ w).
    destruct (exec_shutdown env w0)
      as (w1 & Hexec & Hid & Hsrv & _ & Htrace).
    fold outcome in Hexec. rewrite Hout in Hexec.
    change (dropped_close w0) with (dropped_close w) in Hexec.
    change (close_effects w0) with (close_effects w) in Htrace.
    change (server (this w0)) with (server (this w)) in Hsrv.
    unfold apiWrapper. rewrite exec_bind, exec_try_catch.
    cbn [handler GenericSingleSessionWebDriverServer Methods.shutdown].
    rewrite exec_bind, Hexec.
    unfold caught_log.
    destruct e as [r| |]; cbn; rewrite ?app_nil_r;
      (eexists; split; [reflexivity|]);
      cbn; rewrite Htrace, ?Hid, ?Hsrv; subst w0; cbn [emit trace];
      rewrite <- ?app_assoc; cbn; rewrite ?app_nil_r;
      repeat apply conj; reflexivity.
Qed.

Lemma shutdown_closes_then_stops_witness :
  let req := get_shutdown in
  route req = GET_shutdown /\
  default_hooks (HookCall shutdownSingleSession) = None /\
  server (this example_active) <> None /\
  exists w',
    exec default_hooks (dispatch GenericSingleSessionWebDriverServer req)
      example_active =
      (w', dropped_close example_active,
       Returned (mkWire 200 (JObj [("value", JObj [])]))) /\
    server (this w') = Some Closed /\
    sessionId_ (this w') = "".
Proof.
  cbv zeta.
  split; [reflexivity|]. split; [reflexivity|]. split; [discriminate|].
  destruct (proj1 (proj2
              (shutdown_closes_then_stops default_hooks example_active
                 get_shutdown eq_refl))
              eq_refl ltac:(discriminate))
    as (w' & Hexec & Hsrv & Hid & _).
  exists w'. repeat apply conj; assumption.
Defined.

(** ** Invariants of the event loop *)

Section KeepsFacts.
Variable I : World -> Prop.

Lemma keeps_run_sync {A : Type} (m : Async A) (post : World -> Prop)
  (w : World) :
  keeps I m post w ->
  let '(w1, sp, r) := run_sync m w in
  post (note_rejection r w1) /\
  Forall (keeps_on_resume I) sp /\
  (awaited r <> None ->
   forall err w', I w' ->
     keeps I (snd (resume r err w')) I (fst (resume r err w'))).
Proof.
  revert post w.
  induction m using Async_ind; intros post w Hk; cbn [run_sync keeps] in *.
  - repeat split; [exact Hk | constructor | intros H; now elim H].
  - repeat split; [exact Hk | constructor | intros H; now elim H].
  - now apply H.
  - now apply IHm.
  - destruct Hk as [Hpost Hk]. repeat split; [exact Hpost | constructor |].
    intros _ err w' Hw'. destruct (Hk w' Hw') as [Hrej Hres].
    cbn [resume]. destruct err as [e|]; cbn; [apply Hrej|].
    exact Hres.
  - destruct Hk as [Hpost Hk]. repeat split; [exact Hpost | constructor |].
    intros _ err w' Hw'. cbn [resume fst snd]. now apply Hk.
  - specialize (IHm1 _ _ Hk).
    destruct (run_sync m1 w) as [[w1 sp1] c].
    destruct IHm1 as (Hk2 & Hsp1 & Hc).
    specialize (IHm2 _ _ Hk2).
    destruct (run_sync m2 (note_rejection c w1)) as [[w2 sp2] r].
    destruct IHm2 as (Hpost & Hsp2 & Hr).
    repeat split; [exact Hpost | | exact Hr].
    apply Forall_app; split; [exact Hsp1|].
    apply Forall_app; split; [|exact Hsp2].
    destruct c; cbn [detached]; constructor; try constructor;
      intros err w' Hw'; apply Hc; try assumption; discriminate.
Qed.

Lemma start_kept (m : Async unit) (c : Config) :
  Forall (keeps_on_resume I) (pool c) ->
  keeps I m I (world c) ->
  kept I (start m c).
Proof.
  intros Hpool Hk. unfold start.
  pose proof (keeps_run_sync m I (world c) Hk) as H.
  destruct (run_sync m (world c)) as [[w1 sp] r].
  destruct H as (Hpost & Hsp & Hr).
  split; [exact Hpost|]. cbn [pool].
  apply Forall_app; split; [exact Hpool|].
  apply Forall_app; split; [exact Hsp|].
  destruct r; cbn [detached]; constructor; try constructor;
    intros err w' Hw'; apply Hr; try assumption; discriminate.
Qed.

Hypothesis serve_keeps : forall req w, I w -> keeps I (serve req) I w.
Hypothesis program_keeps :
  forall op w, I w -> keeps I (attempt (program op)) I w.

Lemma step_kept (e : Event) (c : Config) : kept I c -> kept I (step e c).
Proof.
  intros [Hw Hpool]. destruct e as [req|op|i err]; cbn [step].
  - apply start_kept; [exact Hpool | now apply serve_keeps].
  - apply start_kept; [exact Hpool | now apply program_keeps].
  - destruct (nth_error (pool c) i) as [t|] eqn:Ht; [|now split].
    assert (Hgood : keeps_on_resume I t).
    { rewrite Forall_forall in Hpool. eapply Hpool, nth_error_In, Ht. }
    specialize (Hgood err (world c) Hw).
    destruct (resume t err (world c)) as [w1 m].
    apply start_kept; [now apply Forall_remove_nth | exact Hgood].
Qed.

Lemma run_kept (events : list Event) (c : Config) :
  kept I c -> kept I (run events c).
Proof.
  revert c. induction events as [|e events IH]; intros c Hc; [exact Hc|].
  apply IH. now apply step_kept.
Qed.
End KeepsFacts.

Lemma handle_inv_fields (w w' : World) :
  sessionId_ (this w') = sessionId_ (this w) ->
  timeout_ (this w') = timeout_ (this w) ->
  handle_inv w -> handle_inv w'.
Proof. unfold handle_inv. now intros -> ->. Qed.

(** Computes [keeps handle_inv] over a method or a route, splitting on
    every test the code makes. *)
Ltac keep_handle :=
  repeat match goal with
         | |- _ /\ _ => split
         | |- forall _, _ => intro
         | |- handle_inv _ =>
             first [ match goal with
                     | H : handle_inv ?w0 |- _ =>
                         apply (handle_inv_fields w0);
                         [reflexivity | reflexivity | exact H]
                     end
                   | unfold handle_inv;
                     cbn -[hex_digit N.div N.modulo Byte.to_N];
                     split; intro; first [reflexivity | discriminate] ]
         | |- context [if ?b then _ else _] => destruct b eqn:?
         | |- context [match timeout_ (this ?w) with _ => _ end] =>
             destruct (timeout_ (this w)) eqn:?
         | |- context [match server (this ?w) with _ => _ end] =>
             destruct (server (this w)) eqn:?
         | |- context [match nth_error ?l ?h with _ => _ end] =>
             destruct (nth_error l h) as [[[] ? ? []]|] eqn:?
         | |- context [match ?e with Some _ => _ | None => _ end] =>
             destruct e eqn:?
         | |- context [match ?e with ExnResponse _ => _ | _ => _ end] =>
             destruct e eqn:?
         | _ => progress cbn -[not_the_session toString_hex truthy get_property]
         end.

Lemma program_keeps_handle (op : Operation) (w : World) :
  handle_inv w -> keeps handle_inv (attempt (program op)) handle_inv w.
Proof.
  intro Hw.
  destruct op; unfold attempt, program, discard, createSession, navigateTo,
    getTitle, closeSession, shutdown, fire, timeout_refresh; keep_handle.
Qed.

Lemma serve_keeps_handle (req : Request) (w : World) :
  handle_inv w -> keeps handle_inv (serve req) handle_inv w.
Proof.
  intro Hw. destruct req as [m u r p b].
  destruct r; unfold serve, dispatch, apiWrapper, handler;
    cbn [route params body GenericSingleSessionWebDriverServer
         Methods.ready Methods.shutdown Methods.createSession
         Methods.navigateTo Methods.screenshot Methods.getTitle
         Methods.closeSession];
    unfold ready, createSession, navigateTo, getTitle, closeSession,
      shutdown, GenericWebDriverServer.screenshot, server_close,
      timeout_refresh;
    keep_handle.
Qed.

Lemma handle_inv_run (events : list Event) (fl : Flags) (rnd : nat -> byte) :
  kept handle_inv (run events (boot fl rnd)).
Proof.
  apply (run_kept handle_inv serve_keeps_handle program_keeps_handle).
  split; [|constructor]. split; reflexivity.
Qed.

Lemma handle_inv_run_op (env : Env) (op : Operation) (w : World) :
  handle_inv w -> handle_inv (run_op env op w).
Proof.
  unfold handle_inv. intro Hw.
  change (this (run_op env op w)) with (fst (state (run_op env op w))).
  assert (Hclosed : forall ts,
            sessionId_ (fst (close_state (this w) ts)) = "" <->
            timeout_ (fst (close_state (this w) ts)) = None)
    by (intro ts; cbn; split; reflexivity).
  destruct op as [|sid u|sid|sid| |h].
  - rewrite state_createSession.
    destruct (str_truthy _); [exact Hw|]. destruct (env _); [exact Hw|].
    cbn [create_state fst sessionId_ timeout_].
    split; intro H; [now elim (draw_nonempty w) | discriminate H].
  - rewrite state_navigateTo. destruct (not_the_session _ _); exact Hw.
  - rewrite state_getTitle. destruct (not_the_session _ _); exact Hw.
  - rewrite state_closeSession.
    destruct (not_the_session _ _); [exact Hw | apply Hclosed].
  - rewrite state_shutdown.
    destruct (str_truthy _); [apply Hclosed | exact Hw].
  - rewrite state_timer_fires.
    destruct (option_map status _) as [[| |]|]; try exact Hw.
    cbn zeta. destruct (str_truthy _); [apply Hclosed | exact Hw].
Qed.

(** C10.  The session id is empty exactly when the timer handle is
    [null]: this holds of the freshly built server, every operation of the
    lifecycle manager run to completion keeps it, and it holds at every
    turn of the event loop for every interleaving of requests, method
    calls, timers and settlements.  So when [navigateTo] or [getTitle]
    pass their session check in a world where it holds, the handle is not
    [null] and [this.timeout_.refresh()] returns: both go on as on an
    active session and the TypeError of a [null] handle is not raised by
    the rearm. *)
Theorem handle_null_iff_idle (env : Env) (op : Operation) (w : World)
  (sid : string) (u : JsVal) (events : list Event) (fl : Flags)
  (rnd : nat -> byte) :
  handle_inv (initial fl rnd) /\
  (handle_inv w -> handle_inv (run_op env op w)) /\
  handle_inv (world (run events (boot fl rnd))) /\
  (handle_inv w -> not_the_session (sessionId_ (this w)) sid = false ->
   exists h,
     timeout_ (this w) = Some h /\
     exec env timeout_refresh w = (refreshed h w, [], Returned tt) /\
     exec env (getTitle sid) w =
       (refreshed h w, [], Returned title_of_the_page) /\
     exec env (navigateTo sid u) w =
       (hook_called env (navigateToSingleSession u) (refreshed h w), [],
        match env (HookCall (navigateToSingleSession u)) with
        | Some e => Threw e
        | None => Returned tt
        end)).
Proof.
  split; [split; reflexivity|].
  split; [apply handle_inv_run_op|].
  split; [apply handle_inv_run|].
  intros Hw Hcheck.
  destruct (timeout_ (this w)) as [h|] eqn:Hh.
  - exists h. split; [reflexivity|].
    now apply exec_with_active_id.
  - apply not_the_session_false in Hcheck as [Hne _].
    now elim Hne; apply Hw.
Qed.

Lemma handle_null_iff_idle_witness :
  handle_inv example_active /\
  not_the_session (sessionId_ (this example_active)) example_id = false /\
  exists h,
    timeout_ (this example_active) = Some h /\
    exec default_hooks (getTitle example_id) example_active =
      (refreshed h example_active, [], Returned title_of_the_page).
Proof.
  assert (Hinv : handle_inv example_active) by (split; discriminate).
  split; [exact Hinv|]. split; [reflexivity|].
  destruct (proj2 (proj2 (proj2
              (handle_null_iff_idle default_hooks op_createSession
                 example_active example_id JNull [] example_flags
                 example_entropy))) Hinv eq_refl)
    as (h & Hh & _ & Htitle & _).
  exists h. split; assumption.
Defined.

(** ** Idle timers *)

(** When operations do not overlap, a pending timer is the timer of the
    active session, and its firing closes that session. *)
Lemma serial_timer_closes_own_session (fl : Flags) (rnd : nat -> byte)
  (ops : list (Operation * Env)) (env : Env) (h : Handle) (t : Timer) :
  let w := run_ops ops (initial fl rnd) in
  nth_error (timers w) h = Some t ->
  status t = Pending ->
  armed_for t = sessionId_ (this w) /\
  timeout_ (this w) = Some h /\
  active w /\
  idle (run_op env (op_timer_fires h) w).
Proof.
  intros w Hnth Hp.
  assert (Hc : consistent w)
    by (apply consistent_run_ops, consistent_initial).
  unfold consistent, consistent_state in Hc.
  assert (H : armed_for t = sessionId_ (this w) /\
              timeout_ (this w) = Some h /\ active w).
  { destruct (timeout_ (this w)) as [h0|].
    - destruct Hc as (Hid & (t0 & Ht0 & _ & Ha) & Hothers).
      destruct (Nat.eq_dec h h0) as [->|Hneq].
      + repeat split; [congruence | exact Hid].
      + now elim (Hothers h t Hneq Hnth).
    - destruct Hc as [_ Hnone]. now elim (Hnone h t Hnth). }
  destruct H as (Ha & Hh & Hactive). repeat split; try assumption.
  unfold idle.
  change (this (run_op env (op_timer_fires h) w))
    with (fst (state (run_op env (op_timer_fires h) w))).
  rewrite state_timer_fires. fold w. rewrite Hnth. cbn [option_map].
  rewrite Hp. cbn zeta.
  apply str_truthy_true in Hactive. now rewrite Hactive.
Qed.

(** The same in every schedule of the event loop in which calls of
    [createSession] do not overlap. *)
Lemma timer_closes_own_session (fl : Flags) (rnd : nat -> byte)
  (events : list Event) (h : Handle) (t : Timer) :
  (forall n, creating (run (firstn n events) (boot fl rnd)) <= 1) ->
  let c := run events (boot fl rnd) in
  nth_error (timers (world c)) h = Some t ->
  status t = Pending ->
  armed_for t = sessionId_ (this (world c)) /\
  timeout_ (this (world c)) = Some h /\
  active (world c) /\
  idle (world (step (Invoke (op_timer_fires h)) c)).
Proof.
  intros Hone c Hnth Hp.
  assert (Hin : in_order c)
    by (apply (run_in_order serve_orderly program_orderly);
        [apply in_order_boot | exact Hone]).
  destruct Hin as [Hc _].
  destruct (consistent_pending _ h t Hc Hnth Hp) as [Hh Htruthy].
  split.
  { unfold consistent, consistent_state in Hc. rewrite Hh in Hc.
    destruct Hc as (_ & (t0 & Ht0 & _ & Ha) & _). congruence. }
  split; [exact Hh|]. split; [now apply str_truthy_true|].
  unfold idle, step, start, attempt, program, fire, closeSession.
  cbn [try_catch run_sync]. rewrite Hnth, Hp.
  destruct t as [[] d a st].
  cbn -[not_the_session]. rewrite (not_the_session_self _ Htruthy).
  cbn. destruct (timeout_ (this (world c))); reflexivity.
Qed.

(** C9 fails on the code.  Two [POST /session] requests overlap: both
    pass the test of [createSession] before the random bytes of either
    arrive.  Both are answered 200, the second id replaces the first in
    the field and the handle of the second timer replaces that of the
    first, which stays pending.  When that first timer, armed for the
    first session, fires, [closeSession] is called on the id of the
    second session, which is closed and its own timer cancelled. *)
Theorem stale_timer_evicts_later_session :
  let post := post_session in
  let first_id := "000102030405060708090a0b0c0d0e0f" in
  let second_id := "101112131415161718191a1b1c1d1e1f" in
  let before :=
    run [Incoming post; Incoming post; Settle 0 None; Settle 0 None]
      (boot example_flags example_entropy) in
  let after := step (Invoke (op_timer_fires 0)) before in
  option_map armed_for (nth_error (timers (world before)) 0) = Some first_id /\
  timer_status 0 (world before) = Some Pending /\
  sessionId_ (this (world before)) = second_id /\
  timeout_ (this (world before)) = Some 1 /\
  responses (world before) =
    [wire_of (Success (JObj [("sessionId", JStr first_id);
                             ("capabilities", JObj [])]));
     wire_of (Success (JObj [("sessionId", JStr second_id);
                             ("capabilities", JObj [])]))] /\
  session_ids (world before) = [second_id; first_id; second_id] /\
  ~ at_most_one_session (world before) /\
  sessionId_ (this (world after)) = "" /\
  timer_status 1 (world after) = Some Cleared /\
  In (released_log second_id) (trace (world after)) /\
  ~ In (released_log first_id) (trace (world after)).
Proof.
  cbv zeta. repeat apply conj; try reflexivity.
  - intro H.
    specialize (H "101112131415161718191a1b1c1d1e1f"
                  "000102030405060708090a0b0c0d0e0f").
    discriminate H; vm_compute; auto.
  - vm_compute. auto 20.
  - vm_compute. intros H.
    repeat (destruct H as [H|H]; [discriminate H|]). exact H.
Qed.

(** ** A session from end to end *)

(** [GET /status] says ready on the idle server and busy on the active
    one, and a request that matches no route is an unknown command. *)
Example status_and_unknown_command :
  let status_request := mkRequest "GET" "/status" GET_status (mkParams "")
                          (JObj []) in
  let other := mkRequest "PUT" "/session" catch_all (mkParams "") (JObj []) in
  let answer req w :=
    snd (exec default_hooks
           (dispatch GenericSingleSessionWebDriverServer req) w) in
  answer status_request example_listening =
    Returned (mkWire 200
      (JObj [("value", JObj [("ready", JBool true);
                             ("message", JStr "ok")])])) /\
  answer status_request example_active =
    Returned (mkWire 200
      (JObj [("value", JObj [("ready", JBool false);
                             ("message", JStr "busy")])])) /\
  answer other example_active =
    Returned (mkWire 404
      (JObj [("value", JObj [("error", JStr "unknown command")])])).
Proof. repeat split. Qed.

(** A session is created, navigated and deleted, every hook succeeding;
    its id is then refused. *)
Example session_end_to_end :
  let events :=
    [Incoming post_session; Settle 0 None;
     Incoming (post_url example_id "http://example.com"); Settle 0 None;
     Incoming (delete_session example_id); Settle 0 None;
     Incoming (get_title example_id)] in
  let c := run events (boot example_flags example_entropy) in
  responses (world c) =
    [wire_of (Success (JObj [("sessionId", JStr example_id);
                             ("capabilities", JObj [])]));
     wire_of (Success (JObj []));
     wire_of (Success (JObj []));
     wire_of InvalidSessionIdError] /\
  pool c = [] /\
  sessionId_ (this (world c)) = "" /\
  timer_status 0 (world c) = Some Cleared.
Proof. vm_compute. repeat split. Qed.

(** ** The command line *)

Section PortCheck.
Import QArith Qround CommandLine.
Local Open Scope Q_scope.

Lemma floor_fixed (q : Q) :
  Qeq_bool (inject_Z (Qfloor q)) q = true <-> exists n, whole q n.
Proof.
  rewrite Qeq_bool_iff. split.
  - intro H. exists (Qfloor q). unfold whole. symmetry. exact H.
  - intros [n H]. unfold whole in H.
    rewrite (Qfloor_comp q (inject_Z n) H), Qfloor_Z. symmetry. exact H.
Qed.

Lemma whole_unique (q : Q) (n m : Z) : whole q n -> whole q m -> n = m.
Proof.
  unfold whole. intros H1 H2.
  apply inject_Z_injective. now rewrite <- H1, <- H2.
Qed.

Lemma below_one (q : Q) (n : Z) :
  whole q n -> negb (Qle_bool 1 q) = true <-> (n < 1)%Z.
Proof.
  unfold whole. intro H. rewrite negb_true_iff.
  rewrite <- not_true_iff_false, Qle_bool_iff.
  assert (E : 1 <= q <-> (1 <= n)%Z).
  { change 1 with (inject_Z 1). rewrite Zle_Qle. now rewrite H. }
  rewrite E. lia.
Qed.

Lemma above_max (q : Q) (n : Z) :
  whole q n -> negb (Qle_bool q 65535) = true <-> (65535 < n)%Z.
Proof.
  unfold whole. intro H. rewrite negb_true_iff.
  rewrite <- not_true_iff_false, Qle_bool_iff.
  assert (E : q <= 65535 <-> (n <= 65535)%Z).
  { change 65535 with (inject_Z 65535). rewrite Zle_Qle. now rewrite H. }
  rewrite E. lia.
Qed.

(** X1.  The check registered with [yargs] accepts a command line exactly
    when its port is a whole number from 1 to 65535, and then returns
    [true]; it never returns [false].  A port that is [NaN] or has a
    fractional part is refused as not an integer; a whole number out of
    range and the two infinities, which [Math.floor] leaves as they are,
    are refused as out of range. *)
Theorem check_accepts_tcp_ports (flags : Argv) :
  (check flags = Ok true <->
   exists q n, port flags = Finite q /\ whole q n /\ (1 <= n <= 65535)%Z) /\
  (check flags = Error "port must be an integer!" <->
   port flags = NaN \/
   exists q, port flags = Finite q /\ ~ exists n, whole q n) /\
  (check flags = Error "port must be between 1 and 65535!" <->
   (exists negative, port flags = Infinity negative) \/
   exists q n, port flags = Finite q /\ whole q n /\
               (n < 1 \/ 65535 < n)%Z) /\
  check flags <> Ok false.
Proof.
  unfold check. destruct (port flags) as [|neg|q]; cbn.
  - repeat split; try discriminate.
    + intros (q & n & H & _). discriminate H.
    + now left.
    + intros [(neg & H)|(q & n & H & _)]; discriminate H.
  - rewrite Bool.eqb_reflx. cbn.
    assert (E : neg || negb neg = true) by now destruct neg.
    unfold greater_than; cbn. rewrite E.
    repeat split; try discriminate.
    + intros (q & n & H & _). discriminate H.
    + intros [H|(q & H & _)]; discriminate H.
    + intros _. left. now exists neg.
  - destruct (Qeq_bool (inject_Z (Qfloor q)) q) eqn:Efl; cbn.
    + apply floor_fixed in Efl as [n Hn].
      pose proof (below_one q n Hn) as Hlo.
      pose proof (above_max q n Hn) as Hhi.
      unfold greater_than; cbn.
      destruct (negb (Qle_bool 1 q)) eqn:Elo; cbn.
      * repeat split; try discriminate.
        -- intros (q' & n' & [= <-] & Hn' & Hr).
           rewrite (whole_unique q n' n Hn' Hn) in Hr.
           assert (n < 1)%Z by now apply Hlo. lia.
        -- intros [H|(q' & [= <-] & Hno)]; [discriminate H|].
           elim Hno. now exists n.
        -- intros _. right. exists q, n. repeat split; auto.
           left. now apply Hlo.
      * destruct (negb (Qle_bool q 65535)) eqn:Ehi; cbn.
        -- repeat split; try discriminate.
           ++ intros (q' & n' & [= <-] & Hn' & Hr).
              rewrite (whole_unique q n' n Hn' Hn) in Hr.
              assert (65535 < n)%Z by now apply Hhi. lia.
           ++ intros [H|(q' & [= <-] & Hno)]; [discriminate H|].
              elim Hno. now exists n.
           ++ intros _. right. exists q, n. repeat split; auto.
              right. now apply Hhi.
        -- repeat split; try discriminate.
           ++ intros _. exists q, n. repeat split; auto.
              ** destruct (Z_lt_le_dec n 1) as [Hlt|Hge]; [|exact Hge].
                 apply Hlo in Hlt. discriminate Hlt.
              ** destruct (Z_lt_le_dec 65535 n) as [Hlt|Hge]; [|exact Hge].
                 apply Hhi in Hlt. discriminate Hlt.
           ++ intros [H|(q' & [= <-] & Hno)]; [discriminate H|].
              elim Hno. now exists n.
           ++ intros [(neg & H)|(q' & n' & [= <-] & Hn' & Hr)];
                [discriminate H|].
              rewrite (whole_unique q n' n Hn' Hn) in Hr.
              destruct Hr as [Hr|Hr].
              ** apply Hlo in Hr. discriminate Hr.
              ** apply Hhi in Hr. discriminate Hr.
    + assert (Hno : ~ exists n, whole q n).
      { intro H. apply floor_fixed in H. congruence. }
      repeat split; try discriminate.
      * intros (q' & n & [= <-] & Hn & _). elim Hno. now exists n.
      * intros _. right. exists q. split; [reflexivity | exact Hno].
      * intros [(neg & H)|(q' & n & [= <-] & Hn & _)]; [discriminate H|].
        elim Hno. now exists n.
Qed.

End PortCheck.

(** ** Routes of the single-session server *)

Lemma ready_iff_falsy (s : string) : String.eqb s "" = negb (str_truthy s).
Proof. destruct s; reflexivity. Qed.

(** X2.  [ready] returns [true] exactly when no session is active, and
    [GET /status] answers 200 with that flag and the message ["ok"] or
    ["busy"], changing nothing.  The flag tells what [POST /session] would
    do next: when it is [true] and the random source delivers, a session is
    created and its id returned; when it is [false], the answer is
    [SessionNotCreatedError]. *)
Theorem status_reports_readiness (env : Env) (w : World) (m u : string)
  (p : Params) (b : JsVal) :
  let req := mkRequest m u GET_status p b in
  let rdy := negb (str_truthy (sessionId_ (this w))) in
  let create := handler GenericSingleSessionWebDriverServer POST_session p b in
  exec env ready w = (w, [], Returned rdy) /\
  exec env (dispatch GenericSingleSessionWebDriverServer req) w =
    (emit (request_log req) w, [],
     Returned (wire_of (Success
       (JObj [("ready", JBool rdy);
              ("message", JStr (if rdy then "ok" else "busy"))])))) /\
  (rdy = true <-> idle w) /\
  (rdy = true ->
   env (randomBytes NUM_RANDOM_ID_BYTES) = None ->
   snd (exec env create w) =
     Returned (Success
       (JObj [("sessionId",
               JStr (toString_hex (fst (draw NUM_RANDOM_ID_BYTES w))));
              ("capabilities", JObj [])]))) /\
  (rdy = false -> snd (exec env create w) = Returned SessionNotCreatedError).
Proof.
  cbv zeta. unfold idle.
  split.
  { unfold ready. cbn. now rewrite ready_iff_falsy. }
  split.
  { unfold dispatch, apiWrapper, handler, ready. cbn.
    rewrite ready_iff_falsy. reflexivity. }
  split.
  { rewrite negb_true_iff. apply str_truthy_false. }
  split.
  - intros Hr Henv. apply negb_true_iff in Hr.
    unfold handler, createSession. cbn -[toString_hex].
    rewrite Hr. cbn -[toString_hex]. rewrite Henv. reflexivity.
  - intros Hr. apply negb_false_iff in Hr.
    unfold handler, createSession. cbn. rewrite Hr. reflexivity.
Qed.

(** X3.  When the random source fails on an idle server, [createSession]
    throws what the source threw: no id is stored, no timer is armed and
    no byte is consumed, so the server is as ready as before.
    [POST /session] answers with that error if it is a response, and
    with [UnknownError] after logging it otherwise. *)
Theorem createSession_random_source_fails (env : Env) (w : World)
  (e : Exception) (m u : string) (p : Params) (b : JsVal) :
  idle w ->
  env (randomBytes NUM_RANDOM_ID_BYTES) = Some e ->
  let c := randomBytes NUM_RANDOM_ID_BYTES in
  let req := mkRequest m u POST_session p b in
  exec env createSession w =
    (emit (Completed c (Some e)) (emit (Invoked c) w), [], Threw e) /\
  exists w',
    exec env (dispatch GenericSingleSessionWebDriverServer req) w =
      (w', [], Returned (wire_of (response_of (Threw e)))) /\
    state w' = state w /\
    cursor w' = cursor w /\
    trace w' =
      (trace w ++ [request_log req; Invoked c; Completed c (Some e)] ++
       caught_log e)%list.
Proof.
  intros Hidle Henv. cbv zeta. apply str_truthy_false in Hidle.
  split.
  { unfold createSession. cbn. rewrite Hidle. cbn. rewrite Henv. reflexivity. }
  unfold dispatch, apiWrapper, handler, createSession. cbn.
  rewrite Hidle. cbn. rewrite Henv.
  destruct e as [r| |]; cbn; eexists; (split; [reflexivity|]); cbn;
    rewrite <- ?app_assoc; repeat split.
Qed.

Lemma createSession_random_source_fails_witness :
  snd (exec no_entropy
         (dispatch GenericSingleSessionWebDriverServer post_session)
         example_world) =
  Returned (mkWire 500
    (JObj [("value", JObj [("error", JStr "unknown error")])])).
Proof.
  destruct (proj2
    (createSession_random_source_fails no_entropy example_world
       (ExnOther (JStr "entropy source unavailable")) "POST" "/session"
       (mkParams "") (JObj []) eq_refl eq_refl)) as (w' & H & _).
  change (mkRequest "POST" "/session" POST_session (mkParams "") (JObj []))
    with post_session in H.
  rewrite H. reflexivity.
Defined.

(** The single-session class does not override [screenshot]:
    [GET /session/:sessionId/screenshot] answers 500 [unable to capture
    screen] for every session id, the active one included, and leaves the
    world as it is but for the request log; in particular it is not an
    activity that restarts the idle timer. *)
Lemma screenshot_is_not_supported (env : Env) (w : World) (m u : string)
  (p : Params) (b : JsVal) :
  let req := mkRequest m u GET_session_screenshot p b in
  exec env (dispatch GenericSingleSessionWebDriverServer req) w =
    (emit (request_log req) w, [],
     Returned (mkWire 500
       (JObj [("value", JObj [("error", JStr "unable to capture screen")])]))).
Proof. reflexivity. Qed.

(** ** Routes of any backend *)

(** X4.  A backend that overrides no method of [GenericWebDriverServer]
    is never ready and never creates a session: [GET /status] answers
    [busy], [POST /session] answers [SessionNotCreatedError], navigation
    and title answer [InvalidSessionIdError], a screenshot
    [UnableToCaptureScreenError], and [DELETE] answers 200 all the same.
    No request touches the session id, the timer handle or the timers,
    and only [GET /shutdown] changes the server object, closing the
    listener. *)
Theorem base_class_defaults (env : Env) (w : World) (req : Request) :
  let base := GenericWebDriverServer.methods in
  let answer := snd (exec env (dispatch base req) w) in
  let after := fst (fst (exec env (dispatch base req) w)) in
  snd (fst (exec env (dispatch base req) w)) = [] /\
  sessionId_ (this after) = sessionId_ (this w) /\
  timeout_ (this after) = timeout_ (this w) /\
  timers after = timers w /\
  (route req <> GET_shutdown -> this after = this w) /\
  (route req = GET_status ->
   answer = Returned (wire_of (Success (JObj [("ready", JBool false);
                                              ("message", JStr "busy")])))) /\
  (route req = POST_session ->
   answer = Returned (wire_of SessionNotCreatedError)) /\
  (route req = POST_session_url ->
   forall v, get_property (body req) "url" = Some v -> truthy v = true ->
   answer = Returned (wire_of InvalidSessionIdError)) /\
  (route req = GET_session_title ->
   answer = Returned (wire_of InvalidSessionIdError)) /\
  (route req = GET_session_screenshot ->
   answer = Returned (wire_of UnableToCaptureScreenError)) /\
  (route req = DELETE_session \/ route req = DELETE_session_window ->
   answer = Returned (wire_of (Success (JObj [])))) /\
  (route req = GET_shutdown -> server (this w) <> None ->
   answer = Returned (wire_of (Success (JObj []))) /\
   server (this after) = Some Closed).
Proof.
  cbv zeta. destruct req as [m u r p b]. cbn [route body].
  destruct r; unfold dispatch, apiWrapper, handler; cbn [route params body];
    cbn -[get_property truthy].
  all: repeat match goal with
       | |- context [match get_property ?b ?k with _ => _ end] =>
           destruct (get_property b k) eqn:?; cbn -[get_property truthy]
       | |- context [if truthy ?v then _ else _] =>
           destruct (truthy v) eqn:?; cbn -[get_property truthy]
       | |- context [match server (this ?w) with _ => _ end] =>
           destruct (server (this w)) eqn:?; cbn -[get_property truthy]
       end.
  all: repeat split; try reflexivity; try discriminate; try congruence.
  all: try (intros [H|H]; discriminate H).
  all: try (intros; congruence).
Qed.

(** X5.  Whatever the backend, a [createSession] that returns [null] or
    the empty string makes [POST /session] answer
    [SessionNotCreatedError]; any other id is sent back with empty
    capabilities. *)
Theorem empty_session_id_is_an_error (B : Methods.t) (env : Env)
  (w w1 : World) (sp : list (Async unit)) (created : option string)
  (p : Params) (b : JsVal) :
  exec env (Methods.createSession B) w = (w1, sp, Returned created) ->
  exec env (handler B POST_session p b) w =
    (w1, sp,
     Returned
       match created with
       | None | Some "" => SessionNotCreatedError
       | Some id => Success (JObj [("sessionId", JStr id);
                                   ("capabilities", JObj [])])
       end).
Proof.
  intro H. cbn [handler]. rewrite exec_bind, H.
  destruct created as [[|c s]|]; cbn; rewrite app_nil_r; reflexivity.
Qed.

Lemma empty_session_id_is_an_error_witness :
  exec default_hooks
    (handler (names_its_sessions "") POST_session (mkParams "") (JObj []))
    example_world =
  (example_world, [], Returned SessionNotCreatedError).
Proof.
  exact (empty_session_id_is_an_error (names_its_sessions "") default_hooks
           example_world example_world [] (Some "") (mkParams "") (JObj [])
           eq_refl).
Defined.

(** X6.  Whatever the backend, [POST /session/:sessionId/url] with a body
    whose [url] is the empty string, zero, [false] or [null] answers 400
    [invalid argument] like a body with no [url]: the method [navigateTo]
    is not called and the world is left as it is but for the request
    log. *)
Theorem falsy_url_is_rejected (B : Methods.t) (env : Env) (w : World)
  (m u : string) (p : Params) (fields : list (string * JsVal)) (v : JsVal) :
  lookup_field "url" fields = Some v ->
  In v [JStr ""; JNum 0; JBool false; JNull] ->
  let req := mkRequest m u POST_session_url p (JObj fields) in
  exec env (dispatch B req) w =
    (emit (request_log req) w, [],
     Returned (mkWire 400
       (JObj [("value", JObj [("error", JStr "invalid argument")])]))).
Proof.
  intros Hl Hv. cbv zeta.
  unfold dispatch, apiWrapper, handler. cbn [route params body get_property].
  rewrite Hl.
  assert (Hf : truthy v = false).
  { cbn in Hv. decompose [or] Hv; subst; try reflexivity. contradiction. }
  rewrite Hf. reflexivity.
Qed.

Lemma falsy_url_is_rejected_witness :
  snd (exec default_hooks
         (dispatch GenericSingleSessionWebDriverServer
            (mkRequest "POST" "/session/x/url" POST_session_url
               (mkParams "x") (JObj [("url", JStr "")])))
         example_active) =
  Returned (mkWire 400
    (JObj [("value", JObj [("error", JStr "invalid argument")])])).
Proof.
  rewrite (falsy_url_is_rejected GenericSingleSessionWebDriverServer
             default_hooks example_active "POST" "/session/x/url"
             (mkParams "x") [("url", JStr "")] (JStr "") eq_refl
             (or_introl eq_refl)).
  reflexivity.
Defined.

Lemma base64_digit_char (n : N) : is_base64_char (base64_digit n) = true.
Proof.
  unfold base64_digit, is_base64_char.
  destruct (N.ltb_spec n 26).
  { rewrite N_ascii_embedding by lia.
    replace (65 <=? 65 + n)%N with true by (symmetry; apply N.leb_le; lia).
    replace (65 + n <=? 90)%N with true by (symmetry; apply N.leb_le; lia).
    reflexivity. }
  destruct (N.ltb_spec n 52).
  { rewrite N_ascii_embedding by lia.
    replace (97 <=? 97 + (n - 26))%N with true
      by (symmetry; apply N.leb_le; lia).
    replace (97 + (n - 26) <=? 122)%N with true
      by (symmetry; apply N.leb_le; lia).
    now rewrite orb_true_r. }
  destruct (N.ltb_spec n 62).
  { rewrite N_ascii_embedding by lia.
    replace (48 <=? 48 + (n - 52))%N with true
      by (symmetry; apply N.leb_le; lia).
    replace (48 + (n - 52) <=? 57)%N with true
      by (symmetry; apply N.leb_le; lia).
    now rewrite !orb_true_r. }
  destruct (n =? 62)%N; reflexivity.
Qed.

Lemma toString_base64_shape_upto (k : nat) (bytes : list byte) :
  length bytes <= k ->
  String.length (toString_base64 bytes) = 4 * ((length bytes + 2) / 3) /\
  string_forallb is_base64_char (toString_base64 bytes) = true.
Proof.
  revert bytes. induction k as [k IH] using (well_founded_induction lt_wf).
  intros bytes Hlen.
  destruct bytes as [|a [|b [|c rest]]].
  - split; reflexivity.
  - cbn [toString_base64 String.length string_forallb].
    rewrite !base64_digit_char. split; reflexivity.
  - cbn [toString_base64 String.length string_forallb].
    rewrite !base64_digit_char. split; reflexivity.
  - cbn [length] in Hlen.
    destruct (IH (length rest) ltac:(lia) rest (le_n _)) as [IHl IHc].
    cbn [toString_base64 String.length string_forallb length].
    rewrite !base64_digit_char, IHl, IHc. split; [|reflexivity].
    replace (S (S (S (length rest))) + 2) with (length rest + 2 + 1 * 3) by lia.
    rewrite Nat.div_add by lia. lia.
Qed.

(** X7.  Whatever the backend, the buffer its [screenshot] returns is
    sent by [GET /session/:sessionId/screenshot] as a 200 whose value is
    its base64 text: four characters for every three bytes begun, all of
    the base64 alphabet, and empty only for an empty buffer. *)
Theorem screenshot_is_sent_as_base64 (B : Methods.t) (env : Env)
  (w w1 : World) (sp : list (Async unit)) (png : list byte) (p : Params)
  (b : JsVal) :
  exec env (Methods.screenshot B (sessionId p)) w = (w1, sp, Returned png) ->
  let text := toString_base64 png in
  exec env (handler B GET_session_screenshot p b) w =
    (w1, sp, Returned (Success (JStr text))) /\
  String.length text = 4 * ((length png + 2) / 3) /\
  string_forallb is_base64_char text = true /\
  (png = [] <-> text = "").
Proof.
  intro H. cbv zeta. split.
  { cbn [handler]. rewrite exec_bind, H. cbn. now rewrite app_nil_r. }
  destruct (toString_base64_shape_upto (length png) png (le_n _)) as [Hl Hc].
  split; [exact Hl|]. split; [exact Hc|].
  split; [now intros ->|].
  destruct png as [|a [|b0 [|c rest]]]; [reflexivity| | |]; discriminate.
Qed.

Lemma screenshot_is_sent_as_base64_witness :
  exec default_hooks
    (handler (takes_screenshots [x4d; x61]) GET_session_screenshot
       (mkParams example_id) (JObj []))
    example_active =
  (example_active, [], Returned (Success (JStr "TWE="))).
Proof.
  exact (proj1 (screenshot_is_sent_as_base64 (takes_screenshots [x4d; x61])
                  default_hooks example_active example_active []
                  [x4d; x61] (mkParams example_id) (JObj []) eq_refl)).
Defined.

(** ** A session from creation to close *)

Lemma update_timer_last (l : list Timer) (t : Timer) (f : Timer -> Timer) :
  update_timer (length l) f (l ++ [t]) = (l ++ [f t])%list.
Proof.
  induction l as [|x l IH]; cbn; [reflexivity|]. now rewrite IH.
Qed.

Lemma exec_createSession_idle (env : Env) (w : World) :
  idle w ->
  env (randomBytes NUM_RANDOM_ID_BYTES) = None ->
  let id := toString_hex (fst (draw NUM_RANDOM_ID_BYTES w)) in
  exists w1,
    exec env createSession w = (w1, [], Returned (Some id)) /\
    state w1 = create_state (this w) (timers w) id.
Proof.
  intros Hidle Henv. cbv zeta. apply str_truthy_false in Hidle.
  eexists. split.
  - unfold createSession. cbn -[toString_hex]. rewrite Hidle.
    cbn -[toString_hex]. rewrite Henv. cbn -[toString_hex]. reflexivity.
  - reflexivity.
Qed.

Lemma exec_invalid_session (env : Env) (w : World) (sid : string) (u : JsVal) :
  idle w ->
  exec env ready w = (w, [], Returned true) /\
  exec env (getTitle sid) w =
    (w, [], Threw (ExnResponse InvalidSessionIdError)) /\
  exec env (navigateTo sid u) w =
    (w, [], Threw (ExnResponse InvalidSessionIdError)) /\
  exec env (closeSession sid) w = (w, [], Returned tt).
Proof.
  unfold idle. intro Hidle.
  unfold ready, getTitle, navigateTo, closeSession, not_the_session.
  cbn. rewrite Hidle. cbn. repeat split; reflexivity.
Qed.

(** X8.  On an idle server whose random source delivers, the id that
    [createSession] returns is accepted by [getTitle] at once, and
    [closeSession] on it brings the server back: no id, no handle, the
    timer of the session cleared, [ready] true again.  The id is then
    dead: [getTitle] and [navigateTo] refuse it and a second
    [closeSession] does nothing. *)
Theorem create_then_close (env : Env) (w : World) (u : JsVal) :
  idle w ->
  env (randomBytes NUM_RANDOM_ID_BYTES) = None ->
  let id := toString_hex (fst (draw NUM_RANDOM_ID_BYTES w)) in
  let ms := (idleTimeoutSeconds (flags (this w)) * MILLISECONDS_PER_SECOND)%Z in
  let h := length (timers w) in
  exists w1 w2,
    exec env createSession w = (w1, [], Returned (Some id)) /\
    exec env (getTitle id) w1 =
      (refreshed h w1, [], Returned title_of_the_page) /\
    exec env (closeSession id) w1 = (w2, [], Returned tt) /\
    this w2 = mkServer (flags (this w)) (server (this w)) "" None /\
    timers w2 = (timers w ++ [mkTimer ActivityTimeout ms id Cleared])%list /\
    exec env ready w2 = (w2, [], Returned true) /\
    exec env (getTitle id) w2 =
      (w2, [], Threw (ExnResponse InvalidSessionIdError)) /\
    exec env (navigateTo id u) w2 =
      (w2, [], Threw (ExnResponse InvalidSessionIdError)) /\
    exec env (closeSession id) w2 = (w2, [], Returned tt).
Proof.
  intros Hidle Henv. cbv zeta.
  destruct (exec_createSession_idle env w Hidle Henv) as (w1 & Hcreate & Hst).
  injection Hst as Hthis Htimers.
  assert (Hcheck : not_the_session (sessionId_ (this w1))
                     (toString_hex (fst (draw NUM_RANDOM_ID_BYTES w)))
                   = false).
  { rewrite Hthis. cbn [sessionId_]. now apply not_the_session_self. }
  assert (Hh : timeout_ (this w1) = Some (length (timers w)))
    by now rewrite Hthis.
  destruct (exec_closeSession_match env w1 _ Hcheck)
    as (w2 & Hclose & Hthis2 & Htimers2 & _).
  exists w1, w2.
  split; [exact Hcreate|].
  split; [exact (proj1 (proj2 (exec_with_active_id env w1 _ u _ Hcheck Hh)))|].
  split; [exact Hclose|].
  split; [rewrite Hthis2, Hthis; reflexivity|].
  split.
  { rewrite Htimers2, Hthis, Htimers. cbn [timeout_].
    rewrite update_timer_last. reflexivity. }
  apply exec_invalid_session. unfold idle. now rewrite Hthis2.
Qed.

Lemma create_then_close_witness :
  exists w1 w2,
    exec default_hooks createSession example_world =
      (w1, [], Returned (Some example_id)) /\
    exec default_hooks (closeSession example_id) w1 = (w2, [], Returned tt) /\
    exec default_hooks ready w2 = (w2, [], Returned true).
Proof.
  destruct (create_then_close default_hooks example_world JNull
              eq_refl eq_refl)
    as (w1 & w2 & H1 & _ & H2 & _ & _ & H3 & _).
  exists w1, w2. repeat split; assumption.
Defined.

(** X9.  [closeSession] is idempotent: whatever the state, the id and
    the behaviour of the close hook, a second call with the same id
    returns without changing anything, the close hook is not called
    again. *)
Theorem closeSession_is_idempotent (env env' : Env) (w : World)
  (sid : string) :
  let w1 := fst (fst (exec env (closeSession sid) w)) in
  exec env' (closeSession sid) w1 = (w1, [], Returned tt).
Proof.
  cbv zeta.
  destruct (not_the_session (sessionId_ (this w)) sid) eqn:Hcheck.
  - rewrite (exec_closeSession_other env w sid Hcheck). cbn [fst].
    now apply exec_closeSession_other.
  - destruct (exec_closeSession_match env w sid Hcheck)
      as (w' & Hexec & Hthis & _).
    rewrite Hexec. cbn [fst].
    apply exec_closeSession_other. now rewrite Hthis.
Qed.

Lemma byte_of_hex_digits (b : byte) :
  Byte.of_N (16 * hex_value (hex_digit (Byte.to_N b / 16)) +
             hex_value (hex_digit (Byte.to_N b mod 16))) = Some b.
Proof. destruct b; reflexivity. Qed.

Lemma toString_hex_injective (a b : list byte) :
  toString_hex a = toString_hex b -> a = b.
Proof.
  revert b. induction a as [|x a IH]; intros [|y b] H;
    cbn [toString_hex] in H; try discriminate H; [reflexivity|].
  injection H as Hhi Hlo Hrest.
  f_equal; [|now apply IH].
  pose proof (byte_of_hex_digits x) as Hx.
  rewrite Hhi, Hlo, byte_of_hex_digits in Hx. now injection Hx.
Qed.

(** X10.  The hex text of a buffer determines the buffer, so the id of a
    session determines the random bytes it was made of: two calls of
    [createSession] that draw different bytes return different ids. *)
Theorem distinct_bytes_give_distinct_ids (env env' : Env) (w w' : World) :
  idle w -> idle w' ->
  env (randomBytes NUM_RANDOM_ID_BYTES) = None ->
  env' (randomBytes NUM_RANDOM_ID_BYTES) = None ->
  fst (draw NUM_RANDOM_ID_BYTES w) <> fst (draw NUM_RANDOM_ID_BYTES w') ->
  snd (exec env createSession w) <> snd (exec env' createSession w').
Proof.
  intros Hw Hw' Henv Henv' Hne.
  destruct (exec_createSession_idle env w Hw Henv) as (w1 & -> & _).
  destruct (exec_createSession_idle env' w' Hw' Henv') as (w1' & -> & _).
  cbn [snd]. intro H. apply Hne, toString_hex_injective. congruence.
Qed.

Lemma distinct_bytes_give_distinct_ids_witness :
  snd (exec default_hooks createSession example_world) <>
  snd (exec default_hooks createSession
         (snd (draw NUM_RANDOM_ID_BYTES example_world))).
Proof.
  apply (distinct_bytes_give_distinct_ids default_hooks default_hooks
           example_world (snd (draw NUM_RANDOM_ID_BYTES example_world))).
  - reflexivity.
  - reflexivity.
  - reflexivity.
  - reflexivity.
  - vm_compute. discriminate.
Defined.

(** ** The idle timer over time *)

(** X11.  In every schedule of the event loop in which no two calls of
    [createSession] wait for their random bytes at once: an idle server
    has no pending timer, so nothing is left to fire on a later session;
    and a pending timer is the one [this.timeout_] points to, it was armed
    for the active session, and its firing leaves the server idle. *)
Theorem idle_timer_belongs_to_session (fl : Flags) (rnd : nat -> byte)
  (events : list Event) :
  (forall n, creating (run (firstn n events) (boot fl rnd)) <= 1) ->
  let c := run events (boot fl rnd) in
  let w := world c in
  (idle w -> forall h, timer_status h w <> Some Pending) /\
  (forall h, timer_status h w = Some Pending ->
     timeout_ (this w) = Some h /\
     active w /\
     option_map armed_for (nth_error (timers w) h) =
       Some (sessionId_ (this w)) /\
     idle (world (step (Invoke (op_timer_fires h)) c))).
Proof.
  intros Hone. cbv zeta.
  pose proof (consistent_unless_creates_overlap fl rnd events Hone) as Hc.
  assert (Hp : forall h,
            timer_status h (world (run events (boot fl rnd))) = Some Pending ->
            exists t,
              nth_error (timers (world (run events (boot fl rnd)))) h = Some t
              /\ status t = Pending).
  { unfold timer_status. intros h Hh.
    destruct (nth_error _ h) as [t|]; [|discriminate Hh].
    exists t. split; [reflexivity|]. now injection Hh. }
  split.
  - intros Hidle h Hh. destruct (Hp h Hh) as (t & Ht & Hst).
    destruct (consistent_pending _ h t Hc Ht Hst) as [_ Htruthy].
    apply str_truthy_true in Htruthy. contradiction.
  - intros h Hh. destruct (Hp h Hh) as (t & Ht & Hst).
    destruct (timer_closes_own_session fl rnd events h t Hone Ht Hst)
      as (Ha & Hto & Hact & Hidle).
    repeat split; try assumption.
    rewrite Ht. cbn. now rewrite Ha.
Qed.

Lemma idle_timer_belongs_to_session_witness :
  let events := [Incoming post_session; Settle 0 None] in
  let c := run events (boot example_flags example_entropy) in
  timer_status 0 (world c) = Some Pending /\
  sessionId_ (this (world c)) = example_id /\
  timeout_ (this (world c)) = Some 0 /\
  idle (world (step (Invoke (op_timer_fires 0)) c)).
Proof.
  cbv zeta.
  assert (Hone : forall n,
            creating (run (firstn n [Incoming post_session; Settle 0 None])
                        (boot example_flags example_entropy)) <= 1).
  { intros [|[|[|n]]]; vm_compute; lia. }
  destruct (proj2 (idle_timer_belongs_to_session example_flags
                     example_entropy [Incoming post_session; Settle 0 None]
                     Hone) 0 eq_refl) as (Hh & _ & _ & Hidle).
  split; [reflexivity|]. split; [reflexivity|].
  split; [exact Hh | exact Hidle].
Defined.

(** ** Rejections are handled *)

Lemma unhandled_emit (e : Effect) (w : World) :
  unhandled (emit e w) =
  (unhandled w ++ match e with UnhandledRejection x => [x] | _ => [] end)%list.
Proof.
  unfold unhandled, emit. cbn [trace]. rewrite flat_map_app. cbn.
  now rewrite app_nil_r.
Qed.

Lemma unhandled_with_this (f : Server -> Server) (w : World) :
  unhandled (with_this f w) = unhandled w.
Proof. reflexivity. Qed.

Lemma unhandled_with_timers (f : list Timer -> list Timer) (w : World) :
  unhandled (with_timers f w) = unhandled w.
Proof. reflexivity. Qed.

Lemma unhandled_draw (n : nat) (w : World) :
  unhandled (snd (draw n w)) = unhandled w.
Proof. reflexivity. Qed.

(** Computes [keeps all_handled] over a method or a route, splitting on
    every test the code makes. *)
Ltac keep_handled :=
  repeat match goal with
         | |- _ /\ _ => split
         | |- forall _, _ => intro
         | |- all_handled _ =>
             match goal with
             | H : all_handled ?w0 |- _ =>
                 solve [ unfold all_handled in *;
                         repeat first [ rewrite unhandled_with_this
                                      | rewrite unhandled_with_timers
                                      | rewrite unhandled_draw
                                      | rewrite unhandled_emit ];
                         rewrite H; reflexivity ]
             end
         | |- context [if ?b then _ else _] => destruct b eqn:?
         | |- context [match timeout_ (this ?w) with _ => _ end] =>
             destruct (timeout_ (this w)) eqn:?
         | |- context [match server (this ?w) with _ => _ end] =>
             destruct (server (this w)) eqn:?
         | |- context [match nth_error ?l ?h with _ => _ end] =>
             destruct (nth_error l h) as [[[] ? ? []]|] eqn:?
         | |- context [match ?e with Some _ => _ | None => _ end] =>
             destruct e eqn:?
         | |- context [match ?e with ExnResponse _ => _ | _ => _ end] =>
             destruct e eqn:?
         | _ => progress cbn -[not_the_session toString_hex truthy get_property
                               all_handled draw]
         end.

Lemma program_keeps_handled (op : Operation) (w : World) :
  all_handled w -> keeps all_handled (attempt (program op)) all_handled w.
Proof.
  intro Hw.
  destruct op; unfold attempt, program, discard, createSession, navigateTo,
    getTitle, closeSession, shutdown, fire, timeout_refresh; keep_handled.
Qed.

Lemma serve_keeps_handled (req : Request) (w : World) :
  all_handled w -> keeps all_handled (serve req) all_handled w.
Proof.
  intro Hw. destruct req as [m u r p b].
  destruct r; unfold serve, dispatch, apiWrapper, handler;
    cbn [route params body GenericSingleSessionWebDriverServer
         Methods.ready Methods.shutdown Methods.createSession
         Methods.navigateTo Methods.screenshot Methods.getTitle
         Methods.closeSession];
    unfold ready, createSession, navigateTo, getTitle, closeSession,
      shutdown, GenericWebDriverServer.screenshot, server_close,
      timeout_refresh;
    keep_handled.
Qed.

(** X12.  No promise of the server is rejected without a handler: in
    every interleaving of requests, timers and settlements, and of method
    calls whose caller catches what they throw, whatever the backend
    hooks and the random source throw, the trace holds no unhandled
    rejection.  The routes catch everything in [apiWrapper], and
    the two calls of [closeSession] whose promise is dropped, in
    [shutdown] and in the timer, cannot throw.  The firing of a timer
    needs no handler around it: with or without one it takes the same
    step. *)
Theorem no_unhandled_rejection (events : list Event) (fl : Flags)
  (rnd : nat -> byte) (h : Handle) (c : Config) :
  unhandled (world (run events (boot fl rnd))) = [] /\
  step (Invoke (op_timer_fires h)) c = start (fire h) c.
Proof.
  split.
  - apply (run_kept all_handled serve_keeps_handled program_keeps_handled).
    split; [reflexivity | constructor].
  - unfold step, start, attempt, program, fire. cbn [try_catch run_sync].
    destruct (nth_error (timers (world c)) h) as [[[] d a []]|]; reflexivity.
Qed.

(** ** One response for each request *)

Lemma answered_emit (e : Effect) (w : World) :
  answered (emit e w) =
  answered w + match e with Responded _ _ => 1 | _ => 0 end.
Proof.
  unfold answered, responses, emit. cbn [trace].
  rewrite flat_map_app, length_app. destruct e; reflexivity.
Qed.

Lemma answered_with_this (f : Server -> Server) (w : World) :
  answered (with_this f w) = answered w.
Proof. reflexivity. Qed.

Lemma answered_with_timers (f : list Timer -> list Timer) (w : World) :
  answered (with_timers f w) = answered w.
Proof. reflexivity. Qed.

Lemma answered_draw (n : nat) (w : World) :
  answered (snd (draw n w)) = answered w.
Proof. reflexivity. Qed.

Lemma answered_note_rejection {A : Type} (r : Async A) (w : World) :
  answered (note_rejection r w) = answered w.
Proof. destruct r; cbn [note_rejection]; rewrite ?answered_emit; lia. Qed.

Lemma answered_resume {A : Type} (r : Async A) (err : option Exception)
  (w : World) :
  answered (fst (resume r err w)) = answered w.
Proof.
  destruct r; cbn [resume fst]; try reflexivity.
  - destruct err; cbn [fst].
    + rewrite answered_emit. lia.
    + change (answered (snd (draw n (emit (Completed (randomBytes n) None) w)))
              = answered w).
      rewrite answered_draw, answered_emit. lia.
  - rewrite answered_emit. lia.
Qed.

Lemma answers_run_sync {A : Type} (n : nat) (m : Async A) (w : World) :
  answers n m w ->
  let '(w1, sp, r) := run_sync m w in
  exists n',
    n' <= n /\
    answered w1 + n' = answered w + n /\
    Forall (owes 0) sp /\
    owes_when_suspended n' r.
Proof.
  revert n w.
  induction m using Async_ind; intros n0 w Hk; cbn [run_sync answers] in *.
  - exists 0. subst. split; [lia|]. split; [lia|].
    split; [constructor | reflexivity].
  - exists 0. subst. split; [lia|]. split; [lia|].
    split; [constructor | reflexivity].
  - now apply H.
  - destruct Hk as (sent & Hsent & Hd & Hk). specialize (IHm _ _ Hk).
    destruct (run_sync m (f w)) as [[w1 sp] r].
    destruct IHm as (n' & Hle' & Hn & Hsp & Hr).
    exists n'. split; [lia|]. split; [lia|]. split; [exact Hsp | exact Hr].
  - exists n0. split; [lia|]. split; [rewrite answered_emit; lia|].
    split; [constructor|].
    intros err w'. cbn [resume]. destruct err; cbn; apply Hk.
  - exists n0. split; [lia|]. split; [rewrite answered_emit; lia|].
    split; [constructor|].
    intros err w'. cbn [resume fst snd]. apply Hk.
  - destruct Hk as [Hc Hk]. specialize (IHm1 _ _ Hc).
    destruct (run_sync m1 w) as [[w1 sp1] c].
    destruct IHm1 as (n1 & Hle1 & Hn1 & Hsp1 & Hr1).
    specialize (IHm2 _ _ (Hk (note_rejection c w1))).
    destruct (run_sync m2 (note_rejection c w1)) as [[w2 sp2] r].
    destruct IHm2 as (n2 & Hle2 & Hn2 & Hsp2 & Hr2).
    rewrite answered_note_rejection in Hn2.
    assert (n1 = 0) by lia. subst n1.
    exists n2. split; [lia|]. split; [lia|]. split; [|exact Hr2].
    apply Forall_app; split; [exact Hsp1|].
    apply Forall_app; split; [|exact Hsp2].
    destruct c; cbn [detached]; constructor; try constructor; exact Hr1.
Qed.

Lemma Forall2_zeros (l : list (Async unit)) :
  Forall (owes 0) l ->
  Forall2 owes (repeat 0 (length l)) l /\
  list_sum (repeat 0 (length l)) = 0.
Proof.
  induction 1 as [|t l Ht _ [IH1 IH2]]; cbn.
  - split; [constructor | reflexivity].
  - split; [now constructor | exact IH2].
Qed.

Lemma start_balanced (n total : nat) (m : Async unit) (w : World)
  (p : list (Async unit)) (owed : list nat) :
  Forall2 owes owed p ->
  answers n m w ->
  answered w + list_sum owed + n = total ->
  balanced total (start m (mkConfig w p)).
Proof.
  intros Hpool Hk Htotal. unfold start. cbn [world pool].
  pose proof (answers_run_sync n m w Hk) as H.
  destruct (run_sync m w) as [[w1 sp] r].
  destruct H as (n' & Hle & Hn & Hsp & Hr).
  destruct (Forall2_zeros sp Hsp) as [Hsp2 Hsum].
  unfold balanced. cbn [world pool].
  rewrite answered_note_rejection.
  destruct r; cbn [detached owes_when_suspended] in *.
  1-4, 7: exists (owed ++ repeat 0 (length sp))%list; rewrite app_nil_r;
    split; [now apply Forall2_app | rewrite list_sum_app; lia].
  - exists (owed ++ repeat 0 (length sp) ++ [n'])%list. split.
    + apply Forall2_app; [exact Hpool|].
      apply Forall2_app; [exact Hsp2|]. constructor; [exact Hr | constructor].
    + rewrite !list_sum_app. cbn. lia.
  - exists (owed ++ repeat 0 (length sp) ++ [n'])%list. split.
    + apply Forall2_app; [exact Hpool|].
      apply Forall2_app; [exact Hsp2|]. constructor; [exact Hr | constructor].
    + rewrite !list_sum_app. cbn. lia.
Qed.

Lemma Forall2_remove_nth {A B : Type} (P : A -> B -> Prop) (i : nat)
  (la : list A) (lb : list B) :
  Forall2 P la lb -> Forall2 P (remove_nth i la) (remove_nth i lb).
Proof.
  intro H. revert i. induction H as [|a b la lb Hab Hrest IH]; intro i.
  - destruct i; constructor.
  - destruct i; cbn; [exact Hrest|]. constructor; [exact Hab | apply IH].
Qed.

Lemma Forall2_nth_error {A B : Type} (P : A -> B -> Prop) (i : nat)
  (la : list A) (lb : list B) (b : B) :
  Forall2 P la lb -> nth_error lb i = Some b ->
  exists a, nth_error la i = Some a /\ P a b.
Proof.
  intro H. revert i. induction H as [|a0 b0 la lb Hab _ IH]; intros i Hi.
  - destruct i; discriminate.
  - destruct i; cbn in *.
    + injection Hi as <-. now exists a0.
    + now apply IH.
Qed.

Lemma list_sum_remove_nth (i : nat) (l : list nat) (n : nat) :
  nth_error l i = Some n -> list_sum l = n + list_sum (remove_nth i l).
Proof.
  revert i. induction l as [|x l IH]; intros i Hi.
  - destruct i; discriminate.
  - destruct i as [|i].
    + cbn in Hi. injection Hi as ->. reflexivity.
    + cbn [nth_error] in Hi. cbn [remove_nth].
      change (x + list_sum l = n + (x + list_sum (remove_nth i l))).
      specialize (IH i Hi). lia.
Qed.

Ltac count_sent :=
  repeat first [ rewrite answered_with_this
               | rewrite answered_with_timers
               | rewrite answered_draw
               | rewrite answered_emit ];
  cbn; lia.

(** Computes [answers] over a method or a route, splitting on every test
    the code makes. *)
Ltac count_answers :=
  repeat match goal with
         | |- _ /\ _ => split
         | |- forall _, _ => intro
         | |- exists sent, answered _ = answered _ + sent /\ _ =>
             first [ exists 0; split; [count_sent|]
                   | exists 1; split; [count_sent|] ]
         | |- _ <= _ => lia
         | |- _ = 0 => reflexivity
         | o : Settled _ |- _ => destruct o
         | |- context [if ?b then _ else _] => destruct b eqn:?
         | |- context [match timeout_ (this ?w) with _ => _ end] =>
             destruct (timeout_ (this w)) eqn:?
         | |- context [match server (this ?w) with _ => _ end] =>
             destruct (server (this w)) eqn:?
         | |- context [match nth_error ?l ?h with _ => _ end] =>
             destruct (nth_error l h) as [[[] ? ? []]|] eqn:?
         | |- context [match ?e with Some _ => _ | None => _ end] =>
             destruct e eqn:?
         | |- context [match ?e with ExnResponse _ => _ | _ => _ end] =>
             destruct e eqn:?
         | _ => progress cbn -[not_the_session toString_hex truthy get_property
                               answered draw]
         end.

Lemma program_answers_nothing (op : Operation) (w : World) :
  answers 0 (attempt (program op)) w.
Proof.
  destruct op; unfold attempt, program, discard, createSession, navigateTo,
    getTitle, closeSession, shutdown, fire, timeout_refresh, clearTimeout,
    setTimeout; count_answers.
Qed.

Lemma serve_answers_once (req : Request) (w : World) :
  answers 1 (serve req) w.
Proof.
  destruct req as [m u r p b].
  destruct r; unfold serve, dispatch, apiWrapper, handler;
    cbn [route params body GenericSingleSessionWebDriverServer
         Methods.ready Methods.shutdown Methods.createSession
         Methods.navigateTo Methods.screenshot Methods.getTitle
         Methods.closeSession];
    unfold ready, createSession, navigateTo, getTitle, closeSession,
      shutdown, GenericWebDriverServer.screenshot, server_close,
      timeout_refresh, clearTimeout, setTimeout;
    count_answers.
Qed.

Lemma step_balanced (e : Event) (c : Config) (total : nat) :
  balanced total c ->
  balanced (total + match e with Incoming _ => 1 | _ => 0 end) (step e c).
Proof.
  intros (owed & Hpool & Htotal). destruct c as [w p].
  cbn [world pool] in *.
  destruct e as [req|op|i err]; cbn [step world pool].
  - apply (start_balanced 1 _ _ _ _ owed Hpool (serve_answers_once req w)).
    lia.
  - apply (start_balanced 0 _ _ _ _ owed Hpool
             (program_answers_nothing op w)).
    lia.
  - destruct (nth_error p i) as [t|] eqn:Ht.
    + destruct (Forall2_nth_error _ i _ _ t Hpool Ht) as (n & Hn & Howes).
      specialize (Howes err w).
      pose proof (answered_resume t err w) as Hsame.
      destruct (resume t err w) as [w1 m]. cbn [fst snd] in *.
      apply (start_balanced n _ _ _ _ (remove_nth i owed)).
      * now apply Forall2_remove_nth.
      * exact Howes.
      * rewrite (list_sum_remove_nth i owed n Hn) in Htotal. lia.
    + exists owed. split; [exact Hpool | cbn [world]; lia].
Qed.

Lemma run_balanced (events : list Event) (c : Config) (total : nat) :
  balanced total c -> balanced (total + incoming events) (run events c).
Proof.
  revert c total. induction events as [|e events IH]; intros c total Hc.
  - cbn. now rewrite Nat.add_0_r.
  - cbn [run fold_left].
    replace (total + incoming (e :: events))
      with (total + match e with Incoming _ => 1 | _ => 0 end
            + incoming events)
      by (unfold incoming; destruct e; cbn; lia).
    apply IH. now apply step_balanced.
Qed.

(** X13.  Every request is answered once.  In every interleaving of
    requests, method calls, timers and settlements, the responses sent
    never outnumber the requests received; and whenever no call is
    suspended, each request received has had its response, exactly one. *)
Theorem every_request_is_answered_once (events : list Event) (fl : Flags)
  (rnd : nat -> byte) :
  let c := run events (boot fl rnd) in
  answered (world c) <= incoming events /\
  (pool c = [] -> answered (world c) = incoming events).
Proof.
  cbv zeta.
  assert (H : balanced (0 + incoming events) (run events (boot fl rnd))).
  { apply run_balanced. exists []. split; [constructor | reflexivity]. }
  destruct H as (owed & Hpool & Htotal). split; [lia|].
  intro Hempty. rewrite Hempty in Hpool. inversion Hpool; subst.
  cbn in Htotal. lia.
Qed.

(** ** One close for each session *)

Lemma sessions_created_emit (e : Effect) (w : World) :
  sessions_created (emit e w) =
  sessions_created w + (if is_created_log e then 1 else 0).
Proof.
  unfold sessions_created, emit. cbn [trace].
  rewrite filter_app, length_app. cbn [filter].
  destruct (is_created_log e); reflexivity.
Qed.

Lemma sessions_closed_emit (e : Effect) (w : World) :
  sessions_closed (emit e w) =
  sessions_closed w + (if is_close_call e then 1 else 0).
Proof.
  unfold sessions_closed, emit. cbn [trace].
  rewrite filter_app, length_app. cbn [filter].
  destruct (is_close_call e); reflexivity.
Qed.

Lemma sessions_draw (n : nat) (w : World) :
  sessions_created (snd (draw n w)) = sessions_created w /\
  sessions_closed (snd (draw n w)) = sessions_closed w /\
  this (snd (draw n w)) = this w.
Proof. repeat split. Qed.

Lemma not_the_session_truthy (current sid : string) :
  not_the_session current sid = false -> str_truthy current = true.
Proof.
  unfold not_the_session. intro H. apply orb_false_iff in H as [H _].
  now apply negb_false_iff in H.
Qed.

(** Counts the sessions created, closed and open in a world built from
    another one. *)
Ltac count_sessions :=
  repeat match goal with
         | H : not_the_session ?c _ = false |- _ =>
             apply not_the_session_truthy in H
         end;
  unfold closes_covered, closes_balanced, sessions_open in *;
  repeat first [ rewrite sessions_created_emit
               | rewrite sessions_closed_emit
               | rewrite (proj1 (sessions_draw _ _))
               | rewrite (proj1 (proj2 (sessions_draw _ _)))
               | progress change (sessions_created (with_this ?f ?w))
                   with (sessions_created w)
               | progress change (sessions_created (with_timers ?f ?w))
                   with (sessions_created w)
               | progress change (sessions_closed (with_this ?f ?w))
                   with (sessions_closed w)
               | progress change (sessions_closed (with_timers ?f ?w))
                   with (sessions_closed w) ];
  cbn [is_created_log is_close_call this with_this with_timers emit
       sessionId_];
  rewrite ?(proj2 (proj2 (sessions_draw _ _)));
  cbn [this with_this with_timers emit sessionId_ str_truthy];
  repeat match goal with
         | H : str_truthy ?s = _ |- _ => rewrite H in *
         | |- context [str_truthy (toString_hex ?b)] =>
             change (str_truthy (toString_hex b)) with true
         | H : context [if str_truthy ?s then _ else _] |- _ =>
             destruct (str_truthy s) eqn:?
         | |- context [if str_truthy ?s then _ else _] =>
             destruct (str_truthy s) eqn:?
         end;
  try lia.

(** Computes [keeps closes_covered] over a method or a route, splitting
    on every test the code makes. *)
Ltac keep_covered :=
  repeat match goal with
         | |- _ /\ _ => split
         | |- forall _, _ => intro
         | |- closes_covered _ => solve [count_sessions]
         | |- context [if ?b then _ else _] => destruct b eqn:?
         | |- context [match timeout_ (this ?w) with _ => _ end] =>
             destruct (timeout_ (this w)) eqn:?
         | |- context [match server (this ?w) with _ => _ end] =>
             destruct (server (this w)) eqn:?
         | |- context [match nth_error ?l ?h with _ => _ end] =>
             destruct (nth_error l h) as [[[] ? ? []]|] eqn:?
         | |- context [match ?e with Some _ => _ | None => _ end] =>
             destruct e eqn:?
         | |- context [match ?e with ExnResponse _ => _ | _ => _ end] =>
             destruct e eqn:?
         | _ => progress cbn -[not_the_session toString_hex truthy get_property
                               closes_covered draw str_truthy]
         end.

Lemma program_keeps_covered (op : Operation) (w : World) :
  closes_covered w ->
  keeps closes_covered (attempt (program op)) closes_covered w.
Proof.
  intro Hw.
  destruct op; unfold attempt, program, discard, createSession, navigateTo,
    getTitle, closeSession, shutdown, fire, timeout_refresh; keep_covered.
Qed.

Lemma serve_keeps_covered (req : Request) (w : World) :
  closes_covered w -> keeps closes_covered (serve req) closes_covered w.
Proof.
  intro Hw. destruct req as [m u r p b].
  destruct r; unfold serve, dispatch, apiWrapper, handler;
    cbn [route params body GenericSingleSessionWebDriverServer
         Methods.ready Methods.shutdown Methods.createSession
         Methods.navigateTo Methods.screenshot Methods.getTitle
         Methods.closeSession];
    unfold ready, createSession, navigateTo, getTitle, closeSession,
      shutdown, GenericWebDriverServer.screenshot, server_close,
      timeout_refresh;
    keep_covered.
Qed.

Lemma balanced_run_op (env : Env) (op : Operation) (w : World) :
  closes_balanced w -> closes_balanced (run_op env op w).
Proof.
  intro Hw.
  destruct op as [|sid u|sid|sid| |h];
    unfold run_op, complete, finish, program, discard, createSession,
      navigateTo, getTitle, closeSession, shutdown, fire, timeout_refresh.
  all: turn env.
  all: count_sessions.
  unfold sessions_created, sessions_closed in *. cbn [trace].
  rewrite !filter_app, !length_app. cbn. lia.
Qed.

Lemma balanced_run_ops (ops : list (Operation * Env)) (w : World) :
  closes_balanced w -> closes_balanced (run_ops ops w).
Proof.
  revert w. induction ops as [|[op env] ops IH]; intros w Hw; [exact Hw|].
  apply IH. now apply balanced_run_op.
Qed.

(** X14.  The close hook of the backend is called once for each session.
    In every interleaving, the calls of the close hook and the open
    session never outnumber the sessions created: no close without a
    session.  When operations run one after the other, every session
    created has had its close hook called exactly once, but for the one
    that is still open; on an idle server none is left. *)
Theorem sessions_are_closed_once (events : list Event)
  (ops : list (Operation * Env)) (fl : Flags) (rnd : nat -> byte) :
  let c := run events (boot fl rnd) in
  let w := run_ops ops (initial fl rnd) in
  sessions_closed (world c) + sessions_open (world c)
    <= sessions_created (world c) /\
  sessions_created w = sessions_closed w + sessions_open w /\
  (idle w -> sessions_closed w = sessions_created w).
Proof.
  cbv zeta. split.
  { apply (run_kept closes_covered serve_keeps_covered
             program_keeps_covered).
    split; [|constructor]. unfold closes_covered. cbn. lia. }
  assert (H : closes_balanced (run_ops ops (initial fl rnd))).
  { apply balanced_run_ops. reflexivity. }
  split; [exact H|].
  unfold idle. intro Hidle. unfold closes_balanced, sessions_open in H.
  rewrite Hidle in H. cbn in H. lia.
Qed.

(** ** One timer for each session *)

Lemma length_update_timer (h : Handle) (f : Timer -> Timer) (l : list Timer) :
  length (update_timer h f l) = length l.
Proof.
  revert h. induction l as [|t l IH]; intros [|h]; cbn; try reflexivity.
  now rewrite IH.
Qed.

(** Counts the timers and the sessions created in a world built from
    another one. *)
Ltac count_timers :=
  unfold one_timer_each in *;
  repeat first [ rewrite sessions_created_emit
               | rewrite (proj1 (sessions_draw _ _))
               | progress change (sessions_created (with_this ?f ?w))
                   with (sessions_created w)
               | progress change (sessions_created (with_timers ?f ?w))
                   with (sessions_created w) ];
  cbn [is_created_log timers with_this with_timers emit draw snd];
  rewrite ?length_app, ?length_update_timer;
  cbn [timers with_this with_timers emit draw snd length];
  try lia.

(** Computes [keeps one_timer_each] over a method or a route, splitting
    on every test the code makes. *)
Ltac keep_timers :=
  repeat match goal with
         | |- _ /\ _ => split
         | |- forall _, _ => intro
         | |- one_timer_each _ => solve [count_timers]
         | |- context [if ?b then _ else _] => destruct b eqn:?
         | |- context [match timeout_ (this ?w) with _ => _ end] =>
             destruct (timeout_ (this w)) eqn:?
         | |- context [match server (this ?w) with _ => _ end] =>
             destruct (server (this w)) eqn:?
         | |- context [match nth_error ?l ?h with _ => _ end] =>
             destruct (nth_error l h) as [[[] ? ? []]|] eqn:?
         | |- context [match ?e with Some _ => _ | None => _ end] =>
             destruct e eqn:?
         | |- context [match ?e with ExnResponse _ => _ | _ => _ end] =>
             destruct e eqn:?
         | _ => progress cbn -[not_the_session toString_hex truthy get_property
                               one_timer_each draw]
         end.

Lemma program_keeps_timers (op : Operation) (w : World) :
  one_timer_each w ->
  keeps one_timer_each (attempt (program op)) one_timer_each w.
Proof.
  intro Hw.
  destruct op; unfold attempt, program, discard, createSession, navigateTo,
    getTitle, closeSession, shutdown, fire, timeout_refresh; keep_timers.
Qed.

Lemma serve_keeps_timers (req : Request) (w : World) :
  one_timer_each w -> keeps one_timer_each (serve req) one_timer_each w.
Proof.
  intro Hw. destruct req as [m u r p b].
  destruct r; unfold serve, dispatch, apiWrapper, handler;
    cbn [route params body GenericSingleSessionWebDriverServer
         Methods.ready Methods.shutdown Methods.createSession
         Methods.navigateTo Methods.screenshot Methods.getTitle
         Methods.closeSession];
    unfold ready, createSession, navigateTo, getTitle, closeSession,
      shutdown, GenericWebDriverServer.screenshot, server_close,
      timeout_refresh;
    keep_timers.
Qed.

(** X15.  In every interleaving of requests, method calls, timers and
    settlements, the runtime has been asked for exactly one timer for each
    session created: only [createSession] arms a timer, the keep-alive of
    [navigateTo] and [getTitle] restarts the one there is. *)
Theorem one_timer_for_each_session (events : list Event) (fl : Flags)
  (rnd : nat -> byte) :
  let w := world (run events (boot fl rnd)) in
  length (timers w) = sessions_created w.
Proof.
  apply (run_kept one_timer_each serve_keeps_timers program_keeps_timers).
  split; [reflexivity | constructor].
Qed.

(** ** Requests that wait for nothing *)

(** X16.  [GET /status], [GET /session/:sessionId/title], the screenshot
    route and the catch-all are answered in the turn they arrive in: the
    call is not suspended, it sends its one response, it leaves the
    session id alone and it calls neither a backend hook nor the random
    source.  A client that polls the title to keep its session alive
    never waits for the device. *)
Theorem probes_do_not_wait (req : Request) (c : Config) :
  answers_at_once (route req) = true ->
  let c' := step (Incoming req) c in
  pool c' = pool c /\
  answered (world c') = answered (world c) + 1 /\
  sessionId_ (this (world c')) = sessionId_ (this (world c)) /\
  forall call, In (Invoked call) (trace (world c')) ->
               In (Invoked call) (trace (world c)).
Proof.
  destruct req as [m u r p b]. cbn [route]. intro Hr. cbv zeta.
  destruct c as [w pl].
  destruct r; try discriminate Hr; clear Hr;
    unfold step, start, serve, dispatch, apiWrapper, handler;
    cbn [route params body GenericSingleSessionWebDriverServer
         Methods.ready Methods.getTitle Methods.screenshot world pool];
    unfold ready, getTitle, GenericWebDriverServer.screenshot,
      timeout_refresh.
  all: cbn -[not_the_session answered].
  all: repeat match goal with
         | |- context [if ?b then _ else _] =>
             destruct b eqn:?; cbn -[not_the_session answered]
         | |- context [match timeout_ (this ?w) with _ => _ end] =>
             destruct (timeout_ (this w)) eqn:?; cbn -[not_the_session answered]
         end.
  all: rewrite ?app_nil_r.
  all: split; [reflexivity|].
  all: split;
    [ repeat first [ rewrite answered_emit | rewrite answered_with_this
                   | rewrite answered_with_timers ]; cbn; lia |].
  all: split; [reflexivity|].
  all: intros call Hin;
    repeat (apply in_app_or in Hin as [Hin|[Heq|[]]];
            [|discriminate Heq]); exact Hin.
Qed.

Lemma probes_do_not_wait_witness :
  let c := mkConfig example_active [] in
  let c' := step (Incoming (get_title example_id)) c in
  pool c' = [] /\
  responses (world c') =
    (responses example_active ++
     [wire_of (Success (JStr title_of_the_page))])%list.
Proof.
  cbv zeta. split; [|reflexivity].
  exact (proj1 (probes_do_not_wait (get_title example_id)
                  (mkConfig example_active []) eq_refl)).
Defined.

(** ** What the navigation hook is given *)

Lemma navigates_emit (e : Effect) (w : World) :
  navigates_to_urls w ->
  match e with
  | Invoked (HookCall (navigateToSingleSession u)) => truthy u = true
  | _ => True
  end ->
  navigates_to_urls (emit e w).
Proof.
  unfold navigates_to_urls, emit. cbn [trace]. intros Hw He u Hin.
  apply in_app_or in Hin as [Hin|[Heq|[]]]; [now apply Hw|].
  subst e. exact He.
Qed.

Section Outside.
Variable I : World -> Prop.
Hypothesis serve_keeps : forall req w, I w -> keeps I (serve req) I w.
Hypothesis timer_keeps :
  forall h w, I w -> keeps I (attempt (program (op_timer_fires h))) I w.

Lemma run_kept_from_outside (events : list Event) (c : Config) :
  forallb from_outside events = true -> kept I c -> kept I (run events c).
Proof.
  revert c. induction events as [|e events IH]; intros c Hout Hc; [exact Hc|].
  cbn [forallb] in Hout. apply andb_true_iff in Hout as [He Hout].
  cbn [run fold_left]. apply IH; [exact Hout|].
  destruct Hc as [Hw Hpool].
  destruct e as [req|op|i err]; cbn [step].
  - apply start_kept; [exact Hpool | now apply serve_keeps].
  - destruct op; try discriminate He.
    apply start_kept; [exact Hpool | now apply timer_keeps].
  - destruct (nth_error (pool c) i) as [t|] eqn:Ht; [|now split].
    assert (Hgood : keeps_on_resume I t).
    { rewrite Forall_forall in Hpool. eapply Hpool, nth_error_In, Ht. }
    specialize (Hgood err (world c) Hw).
    destruct (resume t err (world c)) as [w1 m].
    apply start_kept; [now apply Forall_remove_nth | exact Hgood].
Qed.
End Outside.

(** Computes [keeps navigates_to_urls] over a method or a route,
    splitting on every test the code makes; [same_urls] closes a world
    built from one where it holds. *)
Ltac same_urls :=
  repeat first
    [ assumption
    | apply navigates_emit; [|first [exact I | assumption]]
    | progress change (navigates_to_urls (with_this ?f ?w))
        with (navigates_to_urls w)
    | progress change (navigates_to_urls (with_timers ?f ?w))
        with (navigates_to_urls w)
    | progress change (navigates_to_urls (snd (draw ?n ?w)))
        with (navigates_to_urls w) ].

Ltac keep_urls :=
  repeat match goal with
         | |- _ /\ _ => split
         | |- forall _, _ => intro
         | |- navigates_to_urls _ => solve [same_urls]
         | |- context [if ?b then _ else _] => destruct b eqn:?
         | |- context [match timeout_ (this ?w) with _ => _ end] =>
             destruct (timeout_ (this w)) eqn:?
         | |- context [match server (this ?w) with _ => _ end] =>
             destruct (server (this w)) eqn:?
         | |- context [match nth_error ?l ?h with _ => _ end] =>
             destruct (nth_error l h) as [[[] ? ? []]|] eqn:?
         | |- context [match ?e with Some _ => _ | None => _ end] =>
             destruct e eqn:?
         | |- context [match ?e with ExnResponse _ => _ | _ => _ end] =>
             destruct e eqn:?
         | _ => progress cbn -[not_the_session toString_hex truthy get_property
                               navigates_to_urls draw]
         end.

Lemma timer_keeps_urls (h : Handle) (w : World) :
  navigates_to_urls w ->
  keeps navigates_to_urls (attempt (program (op_timer_fires h)))
    navigates_to_urls w.
Proof.
  intro Hw.
  unfold attempt, program, fire, closeSession; keep_urls.
Qed.

Lemma serve_keeps_urls (req : Request) (w : World) :
  navigates_to_urls w ->
  keeps navigates_to_urls (serve req) navigates_to_urls w.
Proof.
  intro Hw. destruct req as [m u r p b].
  destruct r; unfold serve, dispatch, apiWrapper, handler;
    cbn [route params body GenericSingleSessionWebDriverServer
         Methods.ready Methods.shutdown Methods.createSession
         Methods.navigateTo Methods.screenshot Methods.getTitle
         Methods.closeSession];
    unfold ready, createSession, navigateTo, getTitle, closeSession,
      shutdown, GenericWebDriverServer.screenshot, server_close,
      timeout_refresh;
    keep_urls.
Qed.

(** X17.  Requests, timers and settlements in any order only ever call
    the navigation hook with a url that is truthy: the route refuses the
    others before [navigateTo].  On the Tizen backend, where navigation
    and close are both [loadOnTizen], a [null] url, which sends the device
    to its home screen, is therefore given by the close of a session
    only. *)
Theorem device_goes_home_only_on_close (events : list Event) (fl : Flags)
  (rnd : nat -> byte) (h : Hook) :
  forallb from_outside events = true ->
  let w := world (run events (boot fl rnd)) in
  In (Invoked (HookCall h)) (trace w) ->
  (forall u, h = navigateToSingleSession u -> truthy u = true) /\
  (TizenWebDriverServer.loadOnTizen_url h = Some JNull ->
   h = closeSingleSession).
Proof.
  intros Hout w Hin.
  assert (Hk : kept navigates_to_urls (run events (boot fl rnd))).
  { apply (run_kept_from_outside navigates_to_urls serve_keeps_urls
             timer_keeps_urls events _ Hout).
    split; [|constructor]. intros u []. }
  destruct Hk as [Hw _]. fold w in Hw.
  assert (Hu : forall u, h = navigateToSingleSession u -> truthy u = true).
  { intros u ->. now apply Hw. }
  split; [exact Hu|].
  destruct h as [u| |]; cbn; try discriminate; [|reflexivity].
  intros [= ->]. now specialize (Hu JNull eq_refl).
Qed.

Lemma device_goes_home_only_on_close_witness :
  let events :=
    [Incoming post_session; Settle 0 None;
     Incoming (post_url example_id "http://example.com")] in
  let w := world (run events (boot example_flags example_entropy)) in
  In (Invoked (HookCall (navigateToSingleSession (JStr "http://example.com"))))
     (trace w) /\
  truthy (JStr "http://example.com") = true.
Proof.
  cbv zeta.
  assert (Hin : In (Invoked (HookCall (navigateToSingleSession
                                         (JStr "http://example.com"))))
                  (trace (world (run
                     [Incoming post_session; Settle 0 None;
                      Incoming (post_url example_id "http://example.com")]
                     (boot example_flags example_entropy))))).
  { vm_compute. repeat first [left; reflexivity | right]. }
  split; [exact Hin|].
  exact (proj1 (device_goes_home_only_on_close
                  [Incoming post_session; Settle 0 None;
                   Incoming (post_url example_id "http://example.com")]
                  example_flags example_entropy
                  (navigateToSingleSession (JStr "http://example.com"))
                  eq_refl Hin) _ eq_refl).
Defined.

(** ** A close that is not over *)

Lemma responses_emit (e : Effect) (w : World) :
  responses (emit e w) =
  (responses w ++
   match e with Responded st b => [mkWire st b] | _ => [] end)%list.
Proof.
  unfold responses, emit. cbn [trace]. rewrite flat_map_app. cbn.
  now rewrite app_nil_r.
Qed.

(** The responses sent in a world built from another one. *)

Ltac sent_so_far :=
  repeat first [ rewrite responses_emit
               | progress change (responses (with_this ?f ?w))
                   with (responses w)
               | progress change (responses (with_timers ?f ?w))
                   with (responses w)
               | progress change (responses (snd (draw ?n ?w)))
                   with (responses w) ];
  cbn [app]; rewrite ?app_nil_r.

(** X18.  [closeSession] releases the session before its close hook is
    over.  Once a [DELETE] of the active session has arrived, its call is
    suspended on the close hook, not answered yet, and the server is
    already idle; a [POST /session] that arrives then creates a new
    session and is answered first.  When the close hook of the old
    session settles, well or not, the [DELETE] is answered 200 and the
    new session and its timer are left as they are. *)
Theorem new_session_before_close_is_over (w : World) (sid : string)
  (m u m' u' : string) (b b' : JsVal) (p' : Params)
  (err : option Exception) :
  active w ->
  sessionId_ (this w) = sid ->
  let delete := mkRequest m u DELETE_session (mkParams sid) b in
  let post := mkRequest m' u' POST_session p' b' in
  let c1 := step (Incoming delete) (mkConfig w []) in
  let c2 := run [Incoming post; Settle 1 None] c1 in
  let c3 := step (Settle 0 err) c2 in
  let id := toString_hex (fst (draw NUM_RANDOM_ID_BYTES w)) in
  let created :=
    wire_of (Success (JObj [("sessionId", JStr id);
                            ("capabilities", JObj [])])) in
  (map awaited (pool c1) = [Some (HookCall closeSingleSession)] /\
   idle (world c1) /\
   responses (world c1) = responses w) /\
  (map awaited (pool c2) = [Some (HookCall closeSingleSession)] /\
   sessionId_ (this (world c2)) = id /\
   responses (world c2) = (responses w ++ [created])%list) /\
  (pool c3 = [] /\
   sessionId_ (this (world c3)) = id /\
   timer_status (length (timers w)) (world c3) = Some Pending /\
   responses (world c3) =
     (responses w ++ [created; wire_of (Success (JObj []))])%list).
Proof.
  intros Hactive Hsid. cbv zeta.
  apply str_truthy_true in Hactive. rewrite Hsid in Hactive.
  assert (Hcheck : not_the_session sid sid = false)
    by now apply not_the_session_self.
  destruct sid as [|a s]; [discriminate Hactive|].
  unfold run, step, start, serve, dispatch, apiWrapper, handler.
  cbn [route params body sessionId GenericSingleSessionWebDriverServer
       Methods.closeSession Methods.createSession fold_left].
  unfold closeSession, createSession, idle, timer_status.
  destruct (timeout_ (this w)) as [h|] eqn:Hh; destruct err as [e|].
  all: repeat (cbn -[not_the_session toString_hex responses];
               rewrite ?Hsid, ?Hcheck, ?Hh;
               repeat match goal with
                      | |- context [str_truthy (toString_hex (?x :: ?l))] =>
                          change (str_truthy (toString_hex (x :: l))) with true
                      end).
  all: try (rewrite nth_error_app2 by (rewrite ?length_update_timer; lia)).
  all: rewrite ?length_update_timer, ?Nat.sub_diag.
  all: repeat split; try reflexivity.
  all: sent_so_far; try reflexivity.
  all: unfold responses; cbn [trace]; rewrite ?flat_map_app;
    cbn [flat_map app]; rewrite ?app_nil_r, <- ?app_assoc; reflexivity.
Qed.

Lemma new_session_before_close_is_over_witness :
  let c1 :=
    step (Incoming (mkRequest "DELETE" "/session/x" DELETE_session
                      (mkParams example_id) (JObj [])))
      (mkConfig example_active []) in
  let c2 :=
    run [Incoming (mkRequest "POST" "/session" POST_session (mkParams "")
                     (JObj []));
         Settle 1 None] c1 in
  active example_active /\
  map awaited (pool c2) = [Some (HookCall closeSingleSession)] /\
  str_truthy (sessionId_ (this (world c2))) = true.
Proof.
  cbv zeta.
  assert (Hactive : active example_active) by discriminate.
  split; [exact Hactive|].
  pose proof (proj1 (proj2
    (new_session_before_close_is_over example_active example_id
       "DELETE" "/session/x" "POST" "/session"
       (JObj []) (JObj []) (mkParams "") None Hactive eq_refl))) as H.
  cbv zeta in H. destruct H as (Hpool & Hid & _).
  split; [exact Hpool|]. rewrite Hid. reflexivity.
Defined.
